(** * Dial pattern generator: layered guilloche patterns for watch dials

    A shallow embedding of [watch_dial_pattern_generator.py] and the
    properties its specification states about it.

    Number model.  Python's [float] values are read as real numbers ([R]):
    every arithmetic operation is the exact one, [math.sin], [math.cos] and
    [math.pi] are the functions and the constant of analysis; rounding,
    overflow and NaN of binary64 are outside the model.  Python's [int]
    values are [Z]; [int(x)] on a float truncates towards zero; [a // b] on
    ints is floor division ([Z.div]).  Formatting of numbers into attribute
    strings ([str(r)], [f"{x:.6f}"]) is a function of the number alone and is
    left out: nodes carry the numbers.

    Effects.  The host document is a record; the generator returns the
    document it leaves behind.  [random.Random(seed)] is a state threaded
    through the layers in the order the source draws from it.  A Python
    exception and a loop that has not exited within the fuel are outcomes of
    their own. *)

From Stdlib Require Import Reals Lra Lia ZArith List String Ascii Bool.
From Stdlib Require Import Zfloor DecimalString.
Import ListNotations.

Set Warnings "-register-all".
Open Scope R_scope.

(** ** Python values and outcomes *)

(** [int(x)] for a float [x]: truncation towards zero. *)
Definition py_int (x : R) : Z :=
  if Rle_dec 0 x then Zfloor x else Zceil x.

(** [range(start, stop)] over integers. *)
Definition py_range (start stop : Z) : list Z :=
  map (fun k => (start + Z.of_nat k)%Z) (seq 0 (Z.to_nat (stop - start))).

(** [str(n)] for a non-negative int. *)
Definition str_of_nat (n : nat) : string :=
  NilZero.string_of_uint (Nat.to_uint n).

Definition is_py_space (c : ascii) : bool :=
  let n := nat_of_ascii c in
  ((9 <=? n) && (n <=? 13) || (28 <=? n) && (n <=? 32))%nat.

Fixpoint lstrip (s : string) : string :=
  match s with
  | String c s' => if is_py_space c then lstrip s' else s
  | EmptyString => EmptyString
  end.

Fixpoint rstrip (s : string) : string :=
  match s with
  | EmptyString => EmptyString
  | String c s' =>
      match rstrip s' with
      | EmptyString => if is_py_space c then EmptyString else String c EmptyString
      | t => String c t
      end
  end.

(** [s.strip()] on a string of ASCII characters. *)
Definition py_strip (s : string) : string := rstrip (lstrip s).

Definition lower_ascii (c : ascii) : ascii :=
  let n := nat_of_ascii c in
  if ((65 <=? n) && (n <=? 90))%nat then ascii_of_nat (n + 32) else c.

(** [s.lower()] on a string of ASCII characters. *)
Fixpoint py_lower (s : string) : string :=
  match s with
  | EmptyString => EmptyString
  | String c s' => String (lower_ascii c) (py_lower s')
  end.

(** [s or default] on strings: the empty string is falsy. *)
Definition str_or (s default : string) : string :=
  match s with EmptyString => default | _ => s end.

Inductive py_exception : Type :=
| ValueError          (* random.randint on an empty range *)
| ZeroDivisionError.  (* float division by zero *)

(** What a call does: returns, raises, or is still looping when the fuel
    given to its [while] loop is used up. *)
Inductive outcome (A : Type) : Type :=
| Returned (a : A)
| Raised (e : py_exception)
| Unfinished.

Arguments Returned {A} a.
Arguments Raised {A} e.
Arguments Unfinished {A}.

Definition outcome_map {A B} (f : A -> B) (x : outcome A) : outcome B :=
  match x with
  | Returned a => Returned (f a)
  | Raised e => Raised e
  | Unfinished => Unfinished
  end.

(** ** Geometry nodes *)

Definition point : Type := R * R.

(** The style dictionaries the source builds with [set_style]. *)
Record style : Type := mkStyle {
  fill : string;
  stroke : string;
  stroke_width : R;
  stroke_opacity : option R;
  stroke_linecap : option string;
  stroke_linejoin : option string
}.

(** The elements the generator adds: [Circle], a path whose [d] is
    "M p0 L p1 L p2 ..." (never closed), and [Group]. *)
Inductive node : Type :=
| CircleN (cx cy r : R) (st : style)
| PathN (pts : list point) (st : style)
| GroupN (id label : string) (transform : option (R * R * R))
         (clip_path : option string) (children : list node).

(** A [clipPath] element of [defs] holding one circle. *)
Record clip_def : Type := mkClip {
  clip_id : string;
  clip_cx : R;
  clip_cy : R;
  clip_r : R
}.

(** The host document as far as the generator touches it: the centre that
    [get_doc_center] reads off the view box, [svg.unittouu] on a length in
    millimetres ([None] when the host call raises), the [defs] element when
    there is one, and the children of the root. *)
Record svg_doc : Type := mkDoc {
  doc_center : point;
  doc_unittouu : R -> option R;
  doc_defs : option (list clip_def);
  doc_children : list node
}.

(** [mm_to_uu]: the host conversion, or 96/25.4 units per millimetre when
    the host fails. *)
Definition mm_to_uu (svg : svg_doc) (mm : R) : R :=
  match doc_unittouu svg mm with
  | Some u => u
  | None => mm * 96.0 / 25.4
  end.

Definition radians (deg : R) : R := deg * (PI / 180).
Definition degrees (rad : R) : R := rad * (180 / PI).

(** [polar]: angle in degrees, clockwise from 12 o'clock. *)
Definition polar (cx cy r ang_deg_clockwise_from_12 : R) : point :=
  let a := radians ang_deg_clockwise_from_12 in
  (cx + r * sin a, cy - r * cos a).

(** ** Pattern generators *)

Definition ring_style (stroke_w : R) (stroke_color : string) (opacity : R) : style :=
  mkStyle "none" stroke_color stroke_w (Some opacity) None None.

Definition line_style (stroke_w : R) (stroke_color : string) (opacity : R) : style :=
  mkStyle "none" stroke_color stroke_w (Some opacity) (Some "round"%string) None.

Definition curve_style (stroke_w : R) (stroke_color : string) (opacity : R) : style :=
  mkStyle "none" stroke_color stroke_w (Some opacity) None (Some "round"%string).

(** The [while r <= r_outer + 1e-9] loop of [pattern_concentric], run for at
    most [fuel] tests of its condition: the radii of the circles added so
    far, and whether the loop has exited. *)
Fixpoint concentric_loop (fuel : nat) (r_outer spacing r : R) : list R * bool :=
  match fuel with
  | O => ([], false)
  | S fuel' =>
      if Rle_dec r (r_outer + 1e-9)
      then let (rs, exited) := concentric_loop fuel' r_outer spacing (r + spacing) in
           (r :: rs, exited)
      else ([], true)
  end.

(** One circle per radius, all with the style of [pattern_concentric]. *)
Definition circles_at (cx cy w : R) (c : string) (op : R) (rs : list R) : list node :=
  map (fun r => CircleN cx cy r (ring_style w c op)) rs.

Definition concentric_radii (fuel : nat) (r_outer r_inner spacing : R) : list R * bool :=
  concentric_loop fuel r_outer spacing (Rmax 0.0 r_inner).

Definition pattern_concentric (fuel : nat) (cx cy r_outer r_inner spacing stroke_w : R)
    (stroke_color : string) (opacity : R) : outcome (list node) :=
  let (rs, exited) := concentric_radii fuel r_outer r_inner spacing in
  if exited
  then Returned (circles_at cx cy stroke_w stroke_color opacity rs)
  else Unfinished.

Definition pattern_sunburst (cx cy r_outer r_inner : R) (rays : Z) (stroke_w : R)
    (stroke_color : string) (opacity : R) : list node :=
  let rays := Z.max 4 rays in
  let step := 360.0 / IZR rays in
  map (fun i =>
         let ang := IZR i * step in
         PathN [polar cx cy r_inner ang; polar cx cy r_outer ang]
               (line_style stroke_w stroke_color opacity))
      (py_range 0 rays).

(** [count], [start] and [end] of [add_set]. *)
Definition hatch_count (size spacing : R) : Z := (py_int (size / spacing) + 3)%Z.
Definition hatch_start (count : Z) : Z := ((- count) / 2)%Z.
Definition hatch_end (count : Z) : Z := (count / 2 + 1)%Z.

(** The values [off] takes in one run of [add_set]. *)
Definition hatch_offsets (r_outer spacing : R) : list R :=
  let size := r_outer * 2.2 in
  let count := hatch_count size spacing in
  map (fun i => IZR i * spacing) (py_range (hatch_start count) (hatch_end count)).

Definition add_set (cx cy r_outer spacing theta_deg stroke_w : R)
    (stroke_color : string) (opacity : R) : list node :=
  let size := r_outer * 2.2 in
  let half := size / 2.0 in
  let theta := radians theta_deg in
  let ux := cos theta in
  let uy := sin theta in
  let vx := - uy in
  let vy := ux in
  map (fun off =>
         let px := cx + off * vx in
         let py := cy + off * vy in
         PathN [(px - half * ux, py - half * uy); (px + half * ux, py + half * uy)]
               (line_style stroke_w stroke_color opacity))
      (hatch_offsets r_outer spacing).

Definition pattern_crosshatch (cx cy r_outer spacing angle_deg : R) (double : bool)
    (stroke_w : R) (stroke_color : string) (opacity : R) : outcome (list node) :=
  if Req_dec_T spacing 0 then Raised ZeroDivisionError
  else
    let first := add_set cx cy r_outer spacing angle_deg stroke_w stroke_color opacity in
    if double
    then Returned (first ++ add_set cx cy r_outer spacing (angle_deg + 90.0)
                                    stroke_w stroke_color opacity)%list
    else Returned first.

(** One sample of the rosette: its parameter [t], its radius and its angle
    in degrees. *)
Definition guilloche_t (points : Z) (i : Z) : R := (2.0 * PI) * (IZR i / IZR points).

Definition guilloche_radius (r_outer amplitude : R) (lobes points i : Z) : R :=
  Rmax 0.0 (r_outer - amplitude) + amplitude * cos (IZR lobes * guilloche_t points i).

Definition guilloche_angle (points i : Z) : R := degrees (guilloche_t points i).

(** The list [pts] of [pattern_guilloche], after the clamping of [lobes] and
    [points]. *)
Definition guilloche_points (cx cy r_outer : R) (lobes : Z) (amplitude : R) (points : Z)
    : list point :=
  let lobes := Z.max 2 lobes in
  let points := Z.max 200 points in
  map (fun i => polar cx cy (guilloche_radius r_outer amplitude lobes points i)
                      (guilloche_angle points i))
      (py_range 0 (points + 1)).

Definition pattern_guilloche (cx cy r_outer : R) (lobes : Z) (amplitude : R) (points : Z)
    (stroke_w : R) (stroke_color : string) (opacity : R) : list node :=
  [PathN (guilloche_points cx cy r_outer lobes amplitude points)
         (curve_style stroke_w stroke_color opacity)].

(** ** Options, overrides and the random source *)

Inductive pattern_kind : Type := Guilloche | Concentric | Sunburst | Crosshatch.

(** The arguments declared by [add_arguments] that [effect] reads. *)
Record options : Type := mkOptions {
  dial_diameter_mm : R;
  draw_outline : bool;
  outline_stroke_mm : R;
  outline_compensate_stroke : bool;
  clip_to_circle : bool;
  inner_radius_mm : R;
  pattern_type : pattern_kind;
  stroke_mm : R;
  stroke_color : string;
  stroke_opacity_opt : R;
  ring_spacing_mm : R;
  rays : Z;
  lobes : Z;
  amplitude_mm : R;
  points : Z;
  hatch_spacing_mm : R;
  hatch_angle_deg : R;
  hatch_double : bool;
  auto_complex : bool;
  complex_preset : string;
  layers : Z;
  seed : Z;
  rotate_jitter_deg : R;
  opacity_decay : R;
  stroke_decay : R;
  lobe_jitter : Z;
  amp_decay : R;
  group_name : string
}.

(** The overrides dictionary: a key is present or absent. *)
Record overrides : Type := mkOverrides {
  ov_ring_spacing : option R;
  ov_rays : option Z;
  ov_lobes : option Z;
  ov_amplitude : option R;
  ov_points : option Z;
  ov_hatch_spacing : option R;
  ov_hatch_angle : option R;
  ov_hatch_double : option bool
}.

Definition no_overrides : overrides :=
  mkOverrides None None None None None None None None.

Definition set_lobes (v : Z) (ov : overrides) : overrides :=
  mkOverrides (ov_ring_spacing ov) (ov_rays ov) (Some v) (ov_amplitude ov) (ov_points ov)
              (ov_hatch_spacing ov) (ov_hatch_angle ov) (ov_hatch_double ov).

Definition set_amplitude (v : R) (ov : overrides) : overrides :=
  mkOverrides (ov_ring_spacing ov) (ov_rays ov) (ov_lobes ov) (Some v) (ov_points ov)
              (ov_hatch_spacing ov) (ov_hatch_angle ov) (ov_hatch_double ov).

Definition set_points (v : Z) (ov : overrides) : overrides :=
  mkOverrides (ov_ring_spacing ov) (ov_rays ov) (ov_lobes ov) (ov_amplitude ov) (Some v)
              (ov_hatch_spacing ov) (ov_hatch_angle ov) (ov_hatch_double ov).

Definition set_hatch_angle (v : R) (ov : overrides) : overrides :=
  mkOverrides (ov_ring_spacing ov) (ov_rays ov) (ov_lobes ov) (ov_amplitude ov) (ov_points ov)
              (ov_hatch_spacing ov) (Some v) (ov_hatch_double ov).

(** [d.get(key, default)]. *)
Definition get {A} (o : option A) (default : A) : A :=
  match o with Some v => v | None => default end.

(** [random.Random]: a generator state made from a seed, and the two draws
    the source uses.  [next_int g a b] is [randint(a, b)] on a non-empty
    range, [next_uniform g a b] is [uniform(a, b)]. *)
Class RandomSource (G : Type) : Type := {
  seed_random : Z -> G;
  next_int : G -> Z -> Z -> Z * G;
  next_uniform : G -> R -> R -> R * G
}.

(** A small congruential generator, to run the engine on concrete inputs. *)
Definition lcg_next (g : Z) : Z := ((g * 1103515245 + 12345) mod 2147483648)%Z.

#[export] Instance lcg_source : RandomSource Z := {
  seed_random := fun s => (s mod 2147483648)%Z;
  next_int := fun g a b => let g' := lcg_next g in ((a + g' mod (b - a + 1))%Z, g');
  next_uniform := fun g a b =>
    let g' := lcg_next g in (a + (b - a) * (IZR g' / 2147483648), g')
}.

(** ** The layer engine *)

Section Engine.

Context {G : Type} {RS : RandomSource G}.

(** A computation that draws from [rnd]. *)
Definition rand (A : Type) : Type := G -> outcome (A * G).

Definition ret {A} (a : A) : rand A := fun g => Returned (a, g).

Definition bind {A B} (m : rand A) (k : A -> rand B) : rand B :=
  fun g =>
    match m g with
    | Returned (a, g') => k a g'
    | Raised e => Raised e
    | Unfinished => Unfinished
    end.

Definition lift {A} (x : outcome A) : rand A :=
  fun g => outcome_map (fun a => (a, g)) x.

(** [rnd.randint(a, b)]: Python raises [ValueError] on an empty range. *)
Definition randint (a b : Z) : rand Z :=
  fun g => if (a <=? b)%Z then Returned (next_int g a b) else Raised ValueError.

(** [rnd.uniform(a, b)]. *)
Definition uniform (a b : R) : rand R :=
  fun g => Returned (next_uniform g a b).

Variable opts : options.
Variable svg : svg_doc.

(** [_draw_one]: the shapes added to the layer group. *)
Definition draw_one (fuel : nat) (cx cy r_outer r_inner : R) (ptype : pattern_kind)
    (stroke_w : R) (color : string) (opacity : R) (ov : overrides) : outcome (list node) :=
  match ptype with
  | Concentric =>
      let spacing := get (ov_ring_spacing ov) (mm_to_uu svg (ring_spacing_mm opts)) in
      pattern_concentric fuel cx cy r_outer r_inner spacing stroke_w color opacity
  | Sunburst =>
      let rays := get (ov_rays ov) (rays opts) in
      Returned (pattern_sunburst cx cy r_outer r_inner rays stroke_w color opacity)
  | Crosshatch =>
      let hs := get (ov_hatch_spacing ov) (mm_to_uu svg (hatch_spacing_mm opts)) in
      let ha := get (ov_hatch_angle ov) (hatch_angle_deg opts) in
      let hd := get (ov_hatch_double ov) (hatch_double opts) in
      pattern_crosshatch cx cy r_outer hs ha hd stroke_w color opacity
  | Guilloche =>
      let lobes := get (ov_lobes ov) (lobes opts) in
      let amp := get (ov_amplitude ov) (mm_to_uu svg (amplitude_mm opts)) in
      let pts := get (ov_points ov) (points opts) in
      Returned (pattern_guilloche cx cy r_outer lobes amp pts stroke_w color opacity)
  end.

(** A plan entry: a pattern type and the function that makes its overrides
    (which may draw from [rnd]). *)
Definition plan_entry : Type := pattern_kind * (nat -> rand overrides).

(** The guilloche entries of the presets "breguet" and "modern". *)
Definition fixed_rosette (lobes0 jitter : Z) (amp_mm : R) (min_points : Z)
    : nat -> rand overrides :=
  fun _ =>
    bind (randint (- jitter) jitter) (fun j =>
    ret (mkOverrides None None (Some (lobes0 + j)%Z) (Some (mm_to_uu svg amp_mm))
                     (Some (Z.max min_points (points opts))) None None None)).

Definition breguet_plan : list plan_entry :=
  [ (Concentric, fun _ => ret (mkOverrides (Some (mm_to_uu svg 0.45))
                                           None None None None None None None));
    (Guilloche, fixed_rosette 12 2 1.0 1600);
    (Sunburst, fun _ => ret (mkOverrides None (Some 240%Z) None None None None None None));
    (Guilloche, fixed_rosette 36 6 0.28 2400) ].

Definition modern_plan : list plan_entry :=
  [ (Sunburst, fun _ => ret (mkOverrides None (Some 300%Z) None None None None None None));
    (Crosshatch, fun _ => ret (mkOverrides None None None None None
                                           (Some (mm_to_uu svg 0.6)) (Some 35.0) (Some true)));
    (Guilloche, fixed_rosette 18 3 0.75 2000);
    (Guilloche, fixed_rosette 48 8 0.22 3000) ].

Definition rosette_entry : plan_entry := (Guilloche, fun _ => ret no_overrides).

(** [layers = max(1, int(self.options.layers))]. *)
Definition requested_layers : Z := Z.max 1 (layers opts).

(** The preset name after [(... or "rosette_stack").strip().lower()]. *)
Definition preset_name : string :=
  py_lower (py_strip (str_or (complex_preset opts) "rosette_stack")).

(** The plan and the layer count the [if preset == ...] chain leaves. *)
Definition resolve_plan : list plan_entry * Z :=
  if String.eqb preset_name "breguet" then (breguet_plan, Z.max requested_layers 4)
  else if String.eqb preset_name "modern" then (modern_plan, Z.max requested_layers 4)
  else if String.eqb preset_name "pocketwatch"
       then (repeat rosette_entry (Z.to_nat requested_layers), requested_layers)
  else (repeat rosette_entry (Z.to_nat requested_layers), requested_layers).

(** [plan[i % len(plan)]]. *)
Definition plan_at (plan : list plan_entry) (i : nat) : plan_entry :=
  nth (i mod List.length plan) plan rosette_entry.

(** The point count of layer [i] when the plan does not give one. *)
Definition layer_points (i : nat) : Z :=
  let p0 := points opts in
  Z.max 800 (py_int (IZR p0 * (1.0 + 0.10 * INR i))).

(** "vary rosette parameters if not explicitly set by preset" and "vary
    crosshatch angle". *)
Definition vary (i : nat) (ptype : pattern_kind) (ov : overrides) : rand overrides :=
  match ptype with
  | Guilloche =>
      let base_lobes := get (ov_lobes ov) (lobes opts) in
      let base_amp := get (ov_amplitude ov) (mm_to_uu svg (amplitude_mm opts)) in
      bind (match ov_lobes ov with
            | Some _ => ret ov
            | None =>
                bind (randint (- lobe_jitter opts) (lobe_jitter opts)) (fun j =>
                ret (set_lobes (Z.max 2 (base_lobes + j)) ov))
            end) (fun ov1 =>
      let ov2 := match ov_amplitude ov1 with
                 | Some _ => ov1
                 | None => set_amplitude (base_amp * amp_decay opts ^ i) ov1
                 end in
      let ov3 := match ov_points ov2 with
                 | Some _ => ov2
                 | None => set_points (layer_points i) ov2
                 end in
      ret ov3)
  | Crosshatch =>
      match ov_hatch_angle ov with
      | Some _ => ret ov
      | None =>
          bind (uniform (-5.0) 5.0) (fun u =>
          ret (set_hatch_angle (hatch_angle_deg opts + u) ov))
      end
  | _ => ret ov
  end.

(** Per-layer stroke width and opacity. *)
Definition layer_stroke (base_stroke : R) (i : nat) : R :=
  base_stroke * stroke_decay opts ^ i.

Definition layer_opacity (base_opacity : R) (i : nat) : R :=
  Rmax 0.02 (Rmin 1.0 (base_opacity * opacity_decay opts ^ i)).

(** [make_layer]: the group of layer [idx], rotated when the angle is not
    negligible. *)
Definition make_layer (pattern_id : string) (cx cy : R) (idx : nat) (rotate_deg : R)
    (children : list node) : node :=
  GroupN (pattern_id ++ "-layer-" ++ str_of_nat (idx + 1))%string
         ("layer-" ++ str_of_nat (idx + 1))%string
         (if Rlt_dec 1e-9 (Rabs rotate_deg) then Some (rotate_deg, cx, cy) else None)
         None children.

(** The body of [for i in range(layers)]. *)
Definition layer_step (fuel : nat) (plan : list plan_entry) (pattern_id : string)
    (cx cy r_outer r_inner base_stroke base_opacity : R) (i : nat) : rand node :=
  let '(ptype, ofn) := plan_at plan i in
  bind (ofn i) (fun ov0 =>
  bind (vary i ptype ov0) (fun ov =>
  let sw := layer_stroke base_stroke i in
  let op := layer_opacity base_opacity i in
  bind (uniform (- rotate_jitter_deg opts) (rotate_jitter_deg opts)) (fun rot =>
  bind (lift (draw_one fuel cx cy r_outer r_inner ptype sw (stroke_color opts) op ov))
       (fun shapes =>
  ret (make_layer pattern_id cx cy i rot shapes))))).

Fixpoint run_layers (step : nat -> rand node) (idxs : list nat) : rand (list node) :=
  match idxs with
  | [] => ret []
  | i :: rest =>
      bind (step i) (fun lg =>
      bind (run_layers step rest) (fun lgs =>
      ret (lg :: lgs)))
  end.

(** The children of the pattern group: one call of [_draw_one], or the
    layer groups of the preset. *)
Definition pattern_children (fuel : nat) (pattern_id : string)
    (cx cy r_outer r_inner base_stroke base_opacity : R) : outcome (list node) :=
  let rnd := seed_random (seed opts) in
  if negb (auto_complex opts)
  then draw_one fuel cx cy r_outer r_inner (pattern_type opts)
                base_stroke (stroke_color opts) base_opacity no_overrides
  else
    let '(plan, nlayers) := resolve_plan in
    outcome_map fst
      (run_layers (layer_step fuel plan pattern_id cx cy r_outer r_inner
                              base_stroke base_opacity)
                  (seq 0 (Z.to_nat nlayers)) rnd).

Definition outline_style (w : R) : style :=
  mkStyle "none" "#000000" w None None None.

(** [effect].  [hex6] is [uuid.uuid4().hex[:6]], which the operating system
    draws afresh at each run. *)
Definition effect (fuel : nat) (hex6 : string) : outcome svg_doc :=
  let '(cx, cy) := doc_center svg in
  let outline_w_mm := outline_stroke_mm opts in
  let dial_r_mm :=
    (dial_diameter_mm opts
       - (if outline_compensate_stroke opts then outline_w_mm else 0.0)) / 2.0 in
  let r_outer := mm_to_uu svg dial_r_mm in
  let r_inner := mm_to_uu svg (Rmax 0.0 (inner_radius_mm opts)) in
  let gid := str_or (group_name opts) "dial-pattern"%string in
  let pattern_id := (gid ++ "-pattern")%string in
  let clip :=
    if clip_to_circle opts
    then Some (mkClip (gid ++ "-clip-" ++ hex6)%string cx cy r_outer)
    else None in
  let base_stroke := mm_to_uu svg (stroke_mm opts) in
  let base_opacity := stroke_opacity_opt opts in
  outcome_map
    (fun kids =>
       let pattern_g :=
         GroupN pattern_id "pattern" None
                (option_map (fun c => ("url(#" ++ clip_id c ++ ")")%string) clip) kids in
       let outline :=
         if draw_outline opts
         then [CircleN cx cy r_outer (outline_style (mm_to_uu svg outline_w_mm))]
         else [] in
       mkDoc (doc_center svg) (doc_unittouu svg)
             (match clip with
              | Some c => Some (get (doc_defs svg) [] ++ [c])%list
              | None => doc_defs svg
              end)
             (doc_children svg ++ [GroupN gid gid None None (pattern_g :: outline)])%list)
    (pattern_children fuel pattern_id cx cy r_outer r_inner base_stroke base_opacity).

End Engine.

(** ** Reading the result *)

(** The shapes of a tree, in document order. *)
Fixpoint leaves (n : node) : list node :=
  match n with
  | GroupN _ _ _ _ children => flat_map leaves children
  | shape => [shape]
  end.

Definition doc_shapes (d : svg_doc) : list node := flat_map leaves (doc_children d).

(** A tree with the value of every [clip-path] attribute blanked. *)
Fixpoint forget_clip (n : node) : node :=
  match n with
  | GroupN id label tr cp children =>
      GroupN id label tr (option_map (fun _ => EmptyString) cp) (map forget_clip children)
  | shape => shape
  end.

(** A document with the ids of its clip paths and the references to them
    blanked. *)
Definition forget_clip_ids (d : svg_doc) : svg_doc :=
  mkDoc (doc_center d) (doc_unittouu d)
        (option_map (map (fun c => mkClip EmptyString (clip_cx c) (clip_cy c) (clip_r c)))
                    (doc_defs d))
        (map forget_clip (doc_children d)).

(** The children of the pattern group that the last run added: the layer
    groups in auto-complex mode. *)
Definition layer_groups (d : svg_doc) : list node :=
  match last (doc_children d) (PathN [] (outline_style 0)) with
  | GroupN _ _ _ _ (GroupN _ _ _ _ kids :: _) => kids
  | _ => []
  end.

(** Layer group [lg] holds what [_draw_one] draws for pattern type [k] with
    the stroke width and opacity of layer [i]. *)
Definition drawn_layer (o : options) (svg : svg_doc) (fuel : nat) (k : pattern_kind)
    (i : nat) (lg : node) : Prop :=
  exists id label tr shapes ov,
    lg = GroupN id label tr None shapes /\
    draw_one o svg fuel (fst (doc_center svg)) (snd (doc_center svg))
      (mm_to_uu svg ((dial_diameter_mm o
                      - (if outline_compensate_stroke o then outline_stroke_mm o else 0.0))
                     / 2.0))
      (mm_to_uu svg (Rmax 0.0 (inner_radius_mm o)))
      k (layer_stroke o (mm_to_uu svg (stroke_mm o)) i) (stroke_color o)
      (layer_opacity o (stroke_opacity_opt o) i) ov
    = Returned shapes.

(** The kinds of the first [n] layers of a plan. *)
Definition plan_kinds {G : Type} (plan : list (@plan_entry G)) (n : nat) : list pattern_kind :=
  map (fun i => fst (plan_at plan i)) (seq 0 n).

(** The smallest layer count each preset accepts. *)
Definition preset_minimum (name : string) : Z :=
  if String.eqb name "breguet" then 4%Z
  else if String.eqb name "modern" then 4%Z
  else 1%Z.

(** ** Sample inputs *)

(** The defaults of [add_arguments], with the auto-complex fields and the
    point count left open. *)
Definition sample_options (complex : bool) (preset : string) (nlayers npoints : Z) : options :=
  mkOptions 28.5 true 0.12 true true 0.0 Guilloche 0.10 "#000000" 0.35
            0.6 120 12 1.2 npoints 0.7 35.0 true
            complex preset nlayers 1 6.0 0.75 0.85 10 0.70 "dial-pattern".

Definition default_options : options := sample_options false "rosette_stack" 4 1200.

(** The defaults with "Auto complex" ticked. *)
Definition complex_options : options := sample_options true "rosette_stack" 4 1200.

(** The same options with another [stroke_mm]. *)
Definition with_stroke_mm (v : R) (o : options) : options :=
  mkOptions (dial_diameter_mm o) (draw_outline o) (outline_stroke_mm o)
            (outline_compensate_stroke o) (clip_to_circle o) (inner_radius_mm o)
            (pattern_type o) v (stroke_color o) (stroke_opacity_opt o)
            (ring_spacing_mm o) (rays o) (lobes o) (amplitude_mm o) (points o)
            (hatch_spacing_mm o) (hatch_angle_deg o) (hatch_double o)
            (auto_complex o) (complex_preset o) (layers o) (seed o)
            (rotate_jitter_deg o) (opacity_decay o) (stroke_decay o) (lobe_jitter o)
            (amp_decay o) (group_name o).

(** An empty document in millimetres, 100 mm wide and high, one user unit
    per millimetre. *)
Definition mm_document : svg_doc := mkDoc (50, 50) (fun mm => Some mm) None [].

(** Case analysis on the inner [min] and then the outer [max] of a clamp. *)
Ltac clamp_cases :=
  unfold Rmin;
  repeat match goal with |- context [Rle_dec ?a ?b] => destruct (Rle_dec a b) end;
  unfold Rmax;
  repeat match goal with |- context [Rle_dec ?a ?b] => destruct (Rle_dec a b) end;
  lra.

(** Equality of two lists of reals, element by element. *)
Ltac real_list_eq :=
  apply f_equal2; [| reflexivity];
  repeat (apply f_equal2; [lra |]); reflexivity.

(** ** Measuring the result *)

(** Squared distance of a point from the centre [(cx, cy)]. *)
Definition dist2 (cx cy : R) (p : point) : R :=
  (fst p - cx) * (fst p - cx) + (snd p - cy) * (snd p - cy).

(** Mirror image of a point in the vertical line through the centre. *)
Definition mirror_x (cx : R) (p : point) : point := (2 * cx - fst p, snd p).

(** The vector from the first to the second point of a segment. *)
Definition direction (p q : point) : point := (fst q - fst p, snd q - snd p).

Definition dot (u v : point) : R := fst u * fst v + snd u * snd v.

Definition cross (u v : point) : R := fst u * snd v - snd u * fst v.

(** The style of a shape; a group has none. *)
Definition shape_style (n : node) : option style :=
  match n with
  | CircleN _ _ _ st => Some st
  | PathN _ st => Some st
  | GroupN _ _ _ _ _ => None
  end.

(** The group that the last run appended to the root of the document. *)
Definition added_group (d : svg_doc) : node :=
  last (doc_children d) (PathN [] (outline_style 0)).

(** The same options with another [complex_preset]. *)
Definition with_preset (p : string) (o : options) : options :=
  mkOptions (dial_diameter_mm o) (draw_outline o) (outline_stroke_mm o)
            (outline_compensate_stroke o) (clip_to_circle o) (inner_radius_mm o)
            (pattern_type o) (stroke_mm o) (stroke_color o) (stroke_opacity_opt o)
            (ring_spacing_mm o) (rays o) (lobes o) (amplitude_mm o) (points o)
            (hatch_spacing_mm o) (hatch_angle_deg o) (hatch_double o)
            (auto_complex o) p (layers o) (seed o)
            (rotate_jitter_deg o) (opacity_decay o) (stroke_decay o) (lobe_jitter o)
            (amp_decay o) (group_name o).

(** The radii, in user units, and the group id that [effect] computes first. *)
Definition outer_radius (o : options) (svg : svg_doc) : R :=
  mm_to_uu svg ((dial_diameter_mm o
                 - (if outline_compensate_stroke o then outline_stroke_mm o else 0.0))
                / 2.0).

Definition inner_radius (o : options) (svg : svg_doc) : R :=
  mm_to_uu svg (Rmax 0.0 (inner_radius_mm o)).

Definition group_id (o : options) : string := str_or (group_name o) "dial-pattern".

(** The [clip-path] attribute, the id and the children of a group. *)
Definition group_clip (n : node) : option string :=
  match n with GroupN _ _ _ cp _ => cp | _ => None end.

Definition group_label (n : node) : option (string * string) :=
  match n with GroupN id label _ _ _ => Some (id, label) | _ => None end.

Definition group_children (n : node) : list node :=
  match n with GroupN _ _ _ _ children => children | _ => [] end.

(** A shape drawn with no fill, stroke colour [c], stroke width [sw] and
    stroke opacity [op]. *)
Definition styled (c : string) (sw op : R) (s : node) : Prop :=
  exists st,
    shape_style s = Some st /\
    fill st = "none"%string /\
    stroke st = c /\
    stroke_width st = sw /\
    stroke_opacity st = Some op.

(** The same options with other values in the fields that only the
    auto-complex mode reads. *)
Definition with_complex_fields (preset : string) (nlayers sd : Z)
    (rotate_jitter op_decay st_decay : R) (jitter : Z) (a_decay : R) (o : options)
    : options :=
  mkOptions (dial_diameter_mm o) (draw_outline o) (outline_stroke_mm o)
            (outline_compensate_stroke o) (clip_to_circle o) (inner_radius_mm o)
            (pattern_type o) (stroke_mm o) (stroke_color o) (stroke_opacity_opt o)
            (ring_spacing_mm o) (rays o) (lobes o) (amplitude_mm o) (points o)
            (hatch_spacing_mm o) (hatch_angle_deg o) (hatch_double o)
            (auto_complex o) preset nlayers sd
            rotate_jitter op_decay st_decay jitter a_decay (group_name o).

(** The same options with another pattern type and hatch spacing. *)
Definition with_hatch (k : pattern_kind) (spacing_mm : R) (o : options) : options :=
  mkOptions (dial_diameter_mm o) (draw_outline o) (outline_stroke_mm o)
            (outline_compensate_stroke o) (clip_to_circle o) (inner_radius_mm o)
            k (stroke_mm o) (stroke_color o) (stroke_opacity_opt o)
            (ring_spacing_mm o) (rays o) (lobes o) (amplitude_mm o) (points o)
            spacing_mm (hatch_angle_deg o) (hatch_double o)
            (auto_complex o) (complex_preset o) (layers o) (seed o)
            (rotate_jitter_deg o) (opacity_decay o) (stroke_decay o) (lobe_jitter o)
            (amp_decay o) (group_name o).

(** Splitting of the conjunctions at the head of the goal, and no more. *)
Ltac split_ands := repeat match goal with |- _ /\ _ => split end.

(** Reduction of the projections of an options record. *)
Ltac options_fields :=
  cbn [dial_diameter_mm draw_outline outline_stroke_mm outline_compensate_stroke
       clip_to_circle inner_radius_mm pattern_type stroke_mm stroke_color
       stroke_opacity_opt ring_spacing_mm rays lobes amplitude_mm points
       hatch_spacing_mm hatch_angle_deg hatch_double auto_complex complex_preset
       layers seed rotate_jitter_deg opacity_decay stroke_decay lobe_jitter amp_decay
       group_name] in *.

(** The same options asking for concentric rings with another ring spacing. *)
Definition with_ring_spacing (spacing_mm : R) (o : options) : options :=
  mkOptions (dial_diameter_mm o) (draw_outline o) (outline_stroke_mm o)
            (outline_compensate_stroke o) (clip_to_circle o) (inner_radius_mm o)
            Concentric (stroke_mm o) (stroke_color o) (stroke_opacity_opt o)
            spacing_mm (rays o) (lobes o) (amplitude_mm o) (points o)
            (hatch_spacing_mm o) (hatch_angle_deg o) (hatch_double o)
            (auto_complex o) (complex_preset o) (layers o) (seed o)
            (rotate_jitter_deg o) (opacity_decay o) (stroke_decay o) (lobe_jitter o)
            (amp_decay o) (group_name o).

(** * Properties *)

(** ** Python helpers *)

Lemma div_nonneg (a b : R) : 0 <= a -> 0 < b -> 0 <= a / b.
Proof.
  intros Ha Hb. unfold Rdiv. apply Rmult_le_pos; [assumption |].
  left. now apply Rinv_0_lt_compat.
Qed.

Lemma py_int_nonneg (x : R) : 0 <= x -> py_int x = Zfloor x.
Proof. intros Hx. unfold py_int. destruct (Rle_dec 0 x); [reflexivity | contradiction]. Qed.

Lemma py_int_eq (x : R) (z : Z) : 0 <= x -> IZR z <= x < IZR z + 1 -> py_int x = z.
Proof. intros Hx Hz. rewrite py_int_nonneg by assumption. now apply Zfloor_eq. Qed.

Lemma py_range_length (a b : Z) : List.length (py_range a b) = Z.to_nat (b - a).
Proof. unfold py_range. now rewrite length_map, length_seq. Qed.

Lemma in_py_range (a b i : Z) : In i (py_range a b) <-> (a <= i < b)%Z.
Proof.
  unfold py_range. rewrite in_map_iff. split.
  - intros [k [Hk Hin]]. apply in_seq in Hin. lia.
  - intros Hi. exists (Z.to_nat (i - a)). split; [lia | apply in_seq; lia].
Qed.

(** ** Concentric rings *)

Section ConcentricLoop.

Variables r_outer spacing : R.

Lemma concentric_loop_enter (fuel : nat) (r : R) :
  r <= r_outer + 1e-9 ->
  concentric_loop (S fuel) r_outer spacing r =
  (r :: fst (concentric_loop fuel r_outer spacing (r + spacing)),
   snd (concentric_loop fuel r_outer spacing (r + spacing))).
Proof.
  intros Hr. simpl. destruct (Rle_dec r (r_outer + 1e-9)); [| contradiction].
  now destruct (concentric_loop fuel r_outer spacing (r + spacing)).
Qed.

Lemma concentric_loop_exit (fuel : nat) (r : R) :
  ~ r <= r_outer + 1e-9 ->
  concentric_loop (S fuel) r_outer spacing r = ([], true).
Proof.
  intros Hr. simpl. destruct (Rle_dec r (r_outer + 1e-9)); [contradiction | reflexivity].
Qed.

(** The loop started at [r] adds [r], [r + spacing], ... as long as the
    bound holds, and exits at the first radius beyond it. *)
Lemma concentric_loop_exact (n : nat) :
  forall r,
    (forall k, (k < n)%nat -> r + INR k * spacing <= r_outer + 1e-9) ->
    ~ r + INR n * spacing <= r_outer + 1e-9 ->
    forall fuel, (n < fuel)%nat ->
      concentric_loop fuel r_outer spacing r =
      (map (fun k => r + INR k * spacing) (seq 0 n), true).
Proof.
  induction n as [| n IH]; intros r Hin Hout fuel Hfuel;
    (destruct fuel as [| fuel]; [lia |]).
  - apply concentric_loop_exit. simpl in Hout. lra.
  - rewrite concentric_loop_enter.
    + rewrite (IH (r + spacing)); [| | | lia].
      * simpl fst; simpl snd. f_equal.
        cbn [seq]. rewrite <- seq_shift. cbn [map]. rewrite map_map.
        f_equal; [simpl; lra |].
        apply map_ext. intros k. rewrite S_INR. lra.
      * intros k Hk. specialize (Hin (S k) ltac:(lia)). rewrite S_INR in Hin. lra.
      * rewrite S_INR in Hout. lra.
    + specialize (Hin 0%nat ltac:(lia)). simpl in Hin. lra.
Qed.

(** With a positive step the number of radii within the bound is finite. *)
Lemma ring_count_exists (r : R) :
  0 < spacing ->
  exists n, forall k, (k < n)%nat <-> r + INR k * spacing <= r_outer + 1e-9.
Proof.
  intros Hs. destruct (Rle_dec r (r_outer + 1e-9)) as [Hr | Hr].
  - set (x := (r_outer + 1e-9 - r) / spacing).
    assert (Hx : 0 <= x) by (apply div_nonneg; lra).
    assert (Hrx : r_outer + 1e-9 - r = x * spacing) by (unfold x; field; lra).
    pose proof (Zfloor_bound x) as [Hlo Hhi].
    assert (Hz : (0 <= Zfloor x)%Z) by (apply (Zfloor_lub 0); simpl; lra).
    exists (S (Z.to_nat (Zfloor x))). intros k. split.
    + intros Hk.
      assert (Hkz : (Z.of_nat k <= Zfloor x)%Z) by lia.
      apply IZR_le in Hkz. rewrite <- INR_IZR_INZ in Hkz.
      assert (INR k * spacing <= x * spacing) by (apply Rmult_le_compat_r; lra).
      lra.
    + intros Hk.
      assert (Hkx : INR k <= x).
      { apply Rmult_le_reg_r with spacing; lra. }
      rewrite INR_IZR_INZ in Hkx. apply Zfloor_lub in Hkx. lia.
  - exists 0%nat. intros k. split; [lia |].
    intros Hk. pose proof (pos_INR k).
    assert (0 <= INR k * spacing) by (apply Rmult_le_pos; lra). lra.
Qed.

(** A step that is not positive never leaves the loop once it is entered:
    every test of the condition succeeds and adds one more circle. *)
Lemma concentric_loop_never_exits (fuel : nat) :
  spacing <= 0 ->
  forall r, r <= r_outer + 1e-9 ->
    snd (concentric_loop fuel r_outer spacing r) = false /\
    List.length (fst (concentric_loop fuel r_outer spacing r)) = fuel.
Proof.
  intros Hs. induction fuel as [| fuel IH]; intros r Hr.
  - now split.
  - rewrite concentric_loop_enter by assumption. simpl.
    destruct (IH (r + spacing)) as [He Hl]; [lra |]. now rewrite He, Hl.
Qed.

(** Radii never go below the one the loop starts from when the step is not
    negative, whether or not the loop has exited. *)
Lemma concentric_loop_lower_bound (fuel : nat) :
  0 <= spacing ->
  forall r x, In x (fst (concentric_loop fuel r_outer spacing r)) -> r <= x.
Proof.
  intros Hs. induction fuel as [| fuel IH]; intros r x Hin.
  - contradiction.
  - simpl in Hin. destruct (Rle_dec r (r_outer + 1e-9)); [| contradiction].
    destruct (concentric_loop fuel r_outer spacing (r + spacing)) as [rs e] eqn:E.
    simpl in Hin. destruct Hin as [<- | Hin]; [lra |].
    specialize (IH (r + spacing) x). rewrite E in IH. specialize (IH Hin). lra.
Qed.

(** Whatever the step, the radii added within the fuel are the first terms
    of the progression [r], [r + spacing], ..., all within the bound, and the
    loop exits exactly at the first term beyond it. *)
Lemma concentric_loop_prefix (fuel : nat) :
  forall r, exists m : nat,
    (m <= fuel)%nat /\
    fst (concentric_loop fuel r_outer spacing r)
    = map (fun k => r + INR k * spacing) (seq 0 m) /\
    (forall k, (k < m)%nat -> r + INR k * spacing <= r_outer + 1e-9) /\
    (snd (concentric_loop fuel r_outer spacing r) = true ->
     ~ r + INR m * spacing <= r_outer + 1e-9) /\
    (snd (concentric_loop fuel r_outer spacing r) = false -> m = fuel).
Proof.
  induction fuel as [| fuel IH]; intros r.
  - exists 0%nat. cbn. repeat split; try lia; discriminate.
  - destruct (Rle_dec r (r_outer + 1e-9)) as [Hr | Hr].
    + rewrite concentric_loop_enter by assumption. cbn [fst snd].
      destruct (IH (r + spacing)) as [m [Hm [Hl [Hin [Hex Hrun]]]]].
      exists (S m). split; [lia |]. split; [| split; [| split]].
      * rewrite Hl. cbn [seq]. rewrite <- seq_shift. cbn [map]. rewrite map_map.
        f_equal; [simpl; lra |].
        apply map_ext. intros k. rewrite S_INR. lra.
      * intros [| k] Hk; [simpl; lra |].
        specialize (Hin k ltac:(lia)). rewrite S_INR. lra.
      * intros He. specialize (Hex He). rewrite S_INR. lra.
      * intros He. specialize (Hrun He). lia.
    + rewrite concentric_loop_exit by assumption. cbn [fst snd].
      exists 0%nat. split; [lia |]. split; [reflexivity |].
      split; [intros k Hk; lia |]. split; [| discriminate].
      intros _. simpl. lra.
Qed.

End ConcentricLoop.

Lemma pattern_concentric_radii (fuel : nat) (cx cy r_outer r_inner spacing w : R)
    (c : string) (op : R) (rs : list R) :
  concentric_radii fuel r_outer r_inner spacing = (rs, true) ->
  pattern_concentric fuel cx cy r_outer r_inner spacing w c op =
  Returned (circles_at cx cy w c op rs).
Proof. intros H. unfold pattern_concentric. now rewrite H. Qed.

Lemma pattern_concentric_never_raises (fuel : nat) (cx cy r_outer r_inner spacing w : R)
    (c : string) (op : R) (e : py_exception) :
  pattern_concentric fuel cx cy r_outer r_inner spacing w c op <> Raised e.
Proof.
  unfold pattern_concentric.
  destruct (concentric_radii fuel r_outer r_inner spacing) as [rs [|]]; discriminate.
Qed.

Lemma concentric_example_2 (fuel : nat) :
  (6 < fuel)%nat -> concentric_radii fuel 10 0 2 = ([0; 2; 4; 6; 8; 10], true).
Proof.
  intros Hf. unfold concentric_radii.
  rewrite (concentric_loop_exact 10 2 6); [| | | assumption].
  - simpl. unfold Rmax. destruct (Rle_dec 0.0 0); [| lra].
    real_list_eq.
  - intros k Hk. unfold Rmax. destruct (Rle_dec 0.0 0); [| lra].
    do 6 (destruct k as [| k]; [simpl; lra |]). lia.
  - unfold Rmax. destruct (Rle_dec 0.0 0); [| lra]. simpl. lra.
Qed.

Lemma concentric_example_3 (fuel : nat) :
  (4 < fuel)%nat -> concentric_radii fuel 10 0 3 = ([0; 3; 6; 9], true).
Proof.
  intros Hf. unfold concentric_radii.
  rewrite (concentric_loop_exact 10 3 4); [| | | assumption].
  - simpl. unfold Rmax. destruct (Rle_dec 0.0 0); [| lra].
    real_list_eq.
  - intros k Hk. unfold Rmax. destruct (Rle_dec 0.0 0); [| lra].
    do 4 (destruct k as [| k]; [simpl; lra |]). lia.
  - unfold Rmax. destruct (Rle_dec 0.0 0); [| lra]. simpl. lra.
Qed.

(** With a positive spacing the generator returns, given fuel for one test
    of the loop condition more than there are rings. *)
Lemma pattern_concentric_returns (r_outer r_inner spacing : R) :
  0 < spacing ->
  exists n : nat,
    (forall k, (k < n)%nat <-> Rmax 0 r_inner + INR k * spacing <= r_outer + 1e-9) /\
    (forall fuel cx cy w c op, (n < fuel)%nat ->
       pattern_concentric fuel cx cy r_outer r_inner spacing w c op
       = Returned (circles_at cx cy w c op
                     (map (fun k => Rmax 0 r_inner + INR k * spacing) (seq 0 n)))).
Proof.
  intros Hs.
  destruct (ring_count_exists r_outer spacing (Rmax 0 r_inner) Hs) as [n Hn].
  exists n. split; [exact Hn |].
  intros fuel cx cy w c op Hf. apply pattern_concentric_radii.
  unfold concentric_radii. replace 0.0 with 0 by lra.
  apply concentric_loop_exact; [| | assumption].
  - intros k Hk. now apply Hn.
  - intros Hle. apply Hn in Hle. lia.
Qed.

(** C9.  With outer radius 10, inner radius 0 and spacing 2 the concentric
    generator returns exactly six circle nodes, of radii 0, 2, 4, 6, 8, 10 in
    this order, all centred on the dial centre and stroked without fill;
    with spacing 3 exactly four, of radii 0, 3, 6, 9.  In general the rings
    start at [max(0, r_inner)] and increase by [spacing]: whatever the
    spacing, the radii added are the first terms of this progression, each at
    most [r_outer + 1e-9], and the loop exits at the first term beyond this
    bound; for a positive spacing the generator returns exactly [n] circle
    nodes, the one at position [k] of radius [max(0, r_inner) + k * spacing],
    where a radius of the progression is among them exactly when it is at
    most [r_outer + 1e-9]. *)
Theorem concentric_ring_count :
  (forall fuel cx cy w c op, (6 < fuel)%nat ->
     let st := mkStyle "none" c w (Some op) None None in
     exists shapes,
       pattern_concentric fuel cx cy 10 0 2 w c op = Returned shapes /\
       shapes = [CircleN cx cy 0 st; CircleN cx cy 2 st; CircleN cx cy 4 st;
                 CircleN cx cy 6 st; CircleN cx cy 8 st; CircleN cx cy 10 st] /\
       List.length shapes = 6%nat) /\
  (forall fuel cx cy w c op, (4 < fuel)%nat ->
     let st := mkStyle "none" c w (Some op) None None in
     exists shapes,
       pattern_concentric fuel cx cy 10 0 3 w c op = Returned shapes /\
       shapes = [CircleN cx cy 0 st; CircleN cx cy 3 st; CircleN cx cy 6 st;
                 CircleN cx cy 9 st] /\
       List.length shapes = 4%nat) /\
  (forall fuel r_outer r_inner spacing,
     exists m : nat,
       (m <= fuel)%nat /\
       fst (concentric_radii fuel r_outer r_inner spacing)
       = map (fun k => Rmax 0 r_inner + INR k * spacing) (seq 0 m) /\
       (forall k, (k < m)%nat -> Rmax 0 r_inner + INR k * spacing <= r_outer + 1e-9) /\
       (snd (concentric_radii fuel r_outer r_inner spacing) = true ->
        ~ Rmax 0 r_inner + INR m * spacing <= r_outer + 1e-9)) /\
  (forall r_outer r_inner spacing, 0 < spacing ->
     exists n : nat,
       (forall k, (k < n)%nat <-> Rmax 0 r_inner + INR k * spacing <= r_outer + 1e-9) /\
       (forall fuel cx cy w c op, (n < fuel)%nat ->
          exists shapes,
            pattern_concentric fuel cx cy r_outer r_inner spacing w c op
            = Returned shapes /\
            List.length shapes = n /\
            forall k, (k < n)%nat ->
              nth_error shapes k
              = Some (CircleN cx cy (Rmax 0 r_inner + INR k * spacing)
                              (mkStyle "none" c w (Some op) None None)))).
Proof.
  split; [| split; [| split]].
  - intros fuel cx cy w c op Hf st. eexists. split.
    + apply pattern_concentric_radii. now apply concentric_example_2.
    + split; reflexivity.
  - intros fuel cx cy w c op Hf st. eexists. split.
    + apply pattern_concentric_radii. now apply concentric_example_3.
    + split; reflexivity.
  - intros fuel r_outer r_inner spacing. unfold concentric_radii.
    replace 0.0 with 0 by lra.
    destruct (concentric_loop_prefix r_outer spacing fuel (Rmax 0 r_inner))
      as [m [Hm [Hl [Hin [Hex _]]]]].
    exists m. repeat split; assumption.
  - intros r_outer r_inner spacing Hs.
    destruct (pattern_concentric_returns r_outer r_inner spacing Hs) as [n [Hiff Hret]].
    exists n. split; [exact Hiff |].
    intros fuel cx cy w c op Hf. eexists. split; [now apply Hret |].
    unfold circles_at. split; [now rewrite !length_map, length_seq |].
    intros k Hk. rewrite map_map, nth_error_map, nth_error_seq.
    destruct (Nat.ltb_spec k n) as [_ | Hge]; [reflexivity | lia].
Qed.

Lemma concentric_ring_count_witness :
  0 < 2 /\
  exists n : nat,
    (forall k, (k < n)%nat <-> Rmax 0 0 + INR k * 2 <= 10 + 1e-9) /\
    (forall fuel cx cy w c op, (n < fuel)%nat ->
       exists shapes,
         pattern_concentric fuel cx cy 10 0 2 w c op = Returned shapes /\
         List.length shapes = n /\
         forall k, (k < n)%nat ->
           nth_error shapes k
           = Some (CircleN cx cy (Rmax 0 0 + INR k * 2)
                           (mkStyle "none" c w (Some op) None None))).
Proof.
  split; [lra |].
  apply (proj2 (proj2 (proj2 concentric_ring_count)) 10 0 2). lra.
Defined.

(** The loop entered with a spacing that is not positive is never left, and
    the generator is still adding circles whatever fuel it is given. *)
Lemma pattern_concentric_unfinished (fuel : nat) (cx cy r_outer r_inner spacing w : R)
    (c : string) (op : R) :
  spacing <= 0 -> Rmax 0 r_inner <= r_outer + 1e-9 ->
  pattern_concentric fuel cx cy r_outer r_inner spacing w c op = Unfinished /\
  snd (concentric_radii fuel r_outer r_inner spacing) = false /\
  List.length (fst (concentric_radii fuel r_outer r_inner spacing)) = fuel.
Proof.
  intros Hs Hr. unfold pattern_concentric, concentric_radii.
  replace 0.0 with 0 by lra.
  destruct (concentric_loop_never_exits r_outer spacing fuel Hs _ Hr) as [He Hl].
  destruct (concentric_loop fuel r_outer spacing (Rmax 0 r_inner)) as [rs e].
  cbn [fst snd] in *. subst e. now repeat split.
Qed.

(** With spacing 0 every circle added has the start radius. *)
Lemma concentric_zero_spacing_radii (fuel : nat) (r_outer r_inner : R) (r : R) :
  In r (fst (concentric_radii fuel r_outer r_inner 0)) -> r = Rmax 0 r_inner.
Proof.
  unfold concentric_radii. replace 0.0 with 0 by lra.
  destruct (concentric_loop_prefix r_outer 0 fuel (Rmax 0 r_inner))
    as [m [_ [Hl _]]].
  rewrite Hl. intros Hin. apply in_map_iff in Hin.
  destruct Hin as [k [<- _]]. ring.
Qed.

(** C3.  The code has no check of the spacing and never raises: on a ring
    spacing of 0 with the default dial (a single-layer concentric run) the
    generator is still inside its loop after any number of iterations, one
    more circle of radius 0 added at each.  So is the concentric generator
    with outer radius 10, inner radius 0 and spacing 0, and in general with
    any spacing that is not positive whose start radius [max(0, r_inner)] is
    within [r_outer + 1e-9]: no error, circles drawn, no return. *)
Theorem concentric_nonpositive_spacing_hangs :
  forall (G : Type) (RS : RandomSource G),
    (forall fuel hex,
       effect (with_ring_spacing 0 default_options) mm_document fuel hex = Unfinished) /\
    (forall fuel cx cy w c op,
       pattern_concentric fuel cx cy 10 0 0 w c op = Unfinished /\
       List.length (fst (concentric_radii fuel 10 0 0)) = fuel /\
       forall r, In r (fst (concentric_radii fuel 10 0 0)) -> r = 0) /\
    (forall fuel cx cy r_outer r_inner spacing w c op,
       spacing <= 0 -> Rmax 0 r_inner <= r_outer + 1e-9 ->
       pattern_concentric fuel cx cy r_outer r_inner spacing w c op = Unfinished /\
       (forall e, pattern_concentric fuel cx cy r_outer r_inner spacing w c op
                  <> Raised e) /\
       (forall shapes, pattern_concentric fuel cx cy r_outer r_inner spacing w c op
                       <> Returned shapes) /\
       List.length (fst (concentric_radii fuel r_outer r_inner spacing)) = fuel).
Proof.
  intros G RS.
  assert (H0 : Rmax 0 0 <= 10 + 1e-9) by (apply Rmax_lub; lra).
  split; [| split].
  - intros fuel hex. unfold effect. cbn [doc_center mm_document].
    unfold pattern_children, with_ring_spacing. options_fields. cbn [negb].
    unfold draw_one. options_fields. cbn [get ov_ring_spacing no_overrides].
    match goal with
    | |- context [pattern_concentric fuel ?cx ?cy ?ro ?ri ?sp ?w ?c ?op] =>
        destruct (pattern_concentric_unfinished fuel cx cy ro ri sp w c op) as [Hu _];
          [| | rewrite Hu; reflexivity]
    end.
    + cbn. lra.
    + cbn [mm_to_uu doc_unittouu mm_document].
      unfold default_options, sample_options. options_fields.
      apply Rmax_lub; [lra |]. apply Rmax_lub; lra.
  - intros fuel cx cy w c op.
    destruct (pattern_concentric_unfinished fuel cx cy 10 0 0 w c op) as [Hu [_ Hl]];
      [lra | exact H0 |].
    split; [exact Hu |]. split; [exact Hl |].
    intros r Hin. apply concentric_zero_spacing_radii in Hin. rewrite Hin.
    apply Rmax_left. lra.
  - intros fuel cx cy r_outer r_inner spacing w c op Hs Hr.
    destruct (pattern_concentric_unfinished fuel cx cy r_outer r_inner spacing w c op Hs Hr)
      as [Hu [_ Hl]].
    split; [exact Hu |]. rewrite Hu.
    split; [discriminate |]. split; [discriminate | exact Hl].
Qed.

Lemma concentric_nonpositive_spacing_hangs_witness :
  0 <= 0 /\ Rmax 0 0 <= 10 + 1e-9 /\
  pattern_concentric 5 0 0 10 0 0 1 "#000000" 1 = Unfinished /\
  List.length (fst (concentric_radii 5 10 0 0)) = 5%nat.
Proof.
  assert (H0 : Rmax 0 0 <= 10 + 1e-9) by (apply Rmax_lub; lra).
  split; [lra |]. split; [exact H0 |].
  destruct (proj2 (proj2 (concentric_nonpositive_spacing_hangs Z lcg_source))
              5%nat 0 0 10 0 0 1 "#000000"%string 1 ltac:(lra) H0) as [Hu [_ [_ Hl]]].
  split; assumption.
Defined.

(** ** Guilloche *)

Lemma py_range_snoc (p : Z) :
  (0 <= p)%Z -> py_range 0 (p + 1) = (py_range 0 p ++ [p])%list.
Proof.
  intros Hp. unfold py_range.
  replace (Z.to_nat (p + 1 - 0)) with (S (Z.to_nat (p - 0))) by lia.
  rewrite seq_S, map_app. simpl. do 2 f_equal. lia.
Qed.

Lemma py_range_cons (p : Z) :
  (0 < p)%Z -> exists rest, py_range 0 p = 0%Z :: rest.
Proof.
  intros Hp. unfold py_range.
  destruct (Z.to_nat (p - 0)) as [| n] eqn:E; [lia |].
  simpl. now eexists.
Qed.

Lemma guilloche_points_length (cx cy r_outer : R) (lobes : Z) (amplitude : R) (points : Z) :
  List.length (guilloche_points cx cy r_outer lobes amplitude points)
  = Z.to_nat (Z.max 200 points + 1).
Proof.
  unfold guilloche_points. rewrite length_map, py_range_length. f_equal. lia.
Qed.

Lemma guilloche_points_first (cx cy r_outer : R) (lobes : Z) (amplitude : R) (points : Z) :
  hd (0, 0) (guilloche_points cx cy r_outer lobes amplitude points)
  = polar cx cy
          (guilloche_radius r_outer amplitude (Z.max 2 lobes) (Z.max 200 points) 0)
          (guilloche_angle (Z.max 200 points) 0).
Proof.
  unfold guilloche_points.
  destruct (py_range_cons (Z.max 200 points + 1)) as [rest ->]; [lia | reflexivity].
Qed.

Lemma guilloche_points_last (cx cy r_outer : R) (lobes : Z) (amplitude : R) (points : Z) :
  last (guilloche_points cx cy r_outer lobes amplitude points) (0, 0)
  = polar cx cy
          (guilloche_radius r_outer amplitude (Z.max 2 lobes) (Z.max 200 points)
                            (Z.max 200 points))
          (guilloche_angle (Z.max 200 points) (Z.max 200 points)).
Proof.
  unfold guilloche_points.
  rewrite py_range_snoc by lia. rewrite map_app. simpl. now rewrite last_last.
Qed.

Lemma guilloche_t_start (points : Z) : guilloche_t points 0 = 0.
Proof. unfold guilloche_t, Rdiv. lra. Qed.

Lemma guilloche_t_end (points : Z) : (0 < points)%Z -> guilloche_t points points = 2 * PI.
Proof.
  intros Hp. unfold guilloche_t.
  assert (IZR points <> 0) by (apply not_0_IZR; lia).
  unfold Rdiv. rewrite Rinv_r by assumption. lra.
Qed.

(** The cosine of a non-negative whole number of turns is 1. *)
Lemma cos_whole_turns (l : Z) : (0 <= l)%Z -> cos (IZR l * (2 * PI)) = 1.
Proof.
  intros Hl. rewrite <- (Z2Nat.id l Hl), <- INR_IZR_INZ.
  replace (INR (Z.to_nat l) * (2 * PI)) with (0 + 2 * INR (Z.to_nat l) * PI) by ring.
  rewrite cos_period. apply cos_0.
Qed.

(** The curve closes: the sample at [t = 2 pi] has the radius of the sample
    at [t = 0], whatever the number of points. *)
Lemma guilloche_radius_closes (r_outer amplitude : R) (lobes points : Z) :
  (0 <= lobes)%Z -> (0 < points)%Z ->
  guilloche_radius r_outer amplitude lobes points points
  = guilloche_radius r_outer amplitude lobes points 0.
Proof.
  intros Hl Hp. unfold guilloche_radius.
  rewrite guilloche_t_end by assumption. rewrite guilloche_t_start.
  rewrite cos_whole_turns by assumption.
  rewrite Rmult_0_r, cos_0. reflexivity.
Qed.

Lemma guilloche_angle_start (points : Z) : guilloche_angle points 0 = 0.
Proof. unfold guilloche_angle, degrees. rewrite guilloche_t_start. lra. Qed.

Lemma guilloche_angle_end (points : Z) : (0 < points)%Z -> guilloche_angle points points = 360.
Proof.
  intros Hp. unfold guilloche_angle, degrees. rewrite guilloche_t_end by assumption.
  pose proof PI_RGT_0. field. lra.
Qed.

Lemma polar_full_turn (cx cy r : R) : polar cx cy r 360 = polar cx cy r 0.
Proof.
  unfold polar, radians.
  replace (360 * (PI / 180)) with (2 * PI) by field.
  replace (0 * (PI / 180)) with 0 by field.
  now rewrite sin_2PI, cos_2PI, sin_0, cos_0.
Qed.

(** C10 (as amended).  With [points = 360] the guilloche generator emits
    one path, not closed, through exactly 361 sample points, for any lobe
    count, amplitude and outer radius.  The first and last samples have
    equal radii.  Their angles are 0 and 360 degrees: they do not coincide
    as numbers but differ by exactly one full turn, so the sines and cosines
    of the two angles are equal and the two points coincide, well within the
    tolerance 1e-6. *)
Theorem guilloche_closure :
  forall cx cy r_outer lobes amplitude w c op,
  exists pts,
    pattern_guilloche cx cy r_outer lobes amplitude 360 w c op
    = [PathN pts (curve_style w c op)] /\
    List.length pts = 361%nat /\
    let l := Z.max 2 lobes in
    let r_first := guilloche_radius r_outer amplitude l 360 0 in
    let r_last := guilloche_radius r_outer amplitude l 360 360 in
    let a_first := guilloche_angle 360 0 in
    let a_last := guilloche_angle 360 360 in
    hd (0, 0) pts = polar cx cy r_first a_first /\
    last pts (0, 0) = polar cx cy r_last a_last /\
    Rabs (r_last - r_first) <= 1e-6 /\
    a_first = 0 /\ a_last = 0 + 360 * 1 /\
    Rabs (sin (radians a_last) - sin (radians a_first)) <= 1e-6 /\
    Rabs (cos (radians a_last) - cos (radians a_first)) <= 1e-6 /\
    Rabs (fst (last pts (0, 0)) - fst (hd (0, 0) pts)) <= 1e-6 /\
    Rabs (snd (last pts (0, 0)) - snd (hd (0, 0) pts)) <= 1e-6.
Proof.
  intros cx cy r_outer lobes amplitude w c op.
  exists (guilloche_points cx cy r_outer lobes amplitude 360).
  assert (Hzero : forall x, x = 0 -> Rabs x <= 1e-6).
  { intros x ->. rewrite Rabs_R0. lra. }
  assert (Hr : guilloche_radius r_outer amplitude (Z.max 2 lobes) 360 360
               = guilloche_radius r_outer amplitude (Z.max 2 lobes) 360 0)
    by (apply guilloche_radius_closes; lia).
  assert (Ha0 : guilloche_angle 360 0 = 0) by apply guilloche_angle_start.
  assert (Ha1 : guilloche_angle 360 360 = 360) by (apply guilloche_angle_end; lia).
  assert (Hfirst := guilloche_points_first cx cy r_outer lobes amplitude 360).
  assert (Hlast := guilloche_points_last cx cy r_outer lobes amplitude 360).
  change (Z.max 200 360) with 360%Z in Hfirst, Hlast.
  assert (Hsame : last (guilloche_points cx cy r_outer lobes amplitude 360) (0, 0)
                  = hd (0, 0) (guilloche_points cx cy r_outer lobes amplitude 360)).
  { rewrite Hfirst, Hlast, Hr, Ha0, Ha1. apply polar_full_turn. }
  split; [reflexivity |].
  split; [now rewrite guilloche_points_length |].
  cbv zeta.
  split; [exact Hfirst |]. split; [exact Hlast |].
  split; [apply Hzero; rewrite Hr; ring |].
  split; [exact Ha0 |]. split; [rewrite Ha1; ring |].
  rewrite Ha0, Ha1.
  assert (Hp := polar_full_turn 0 0 1). unfold polar in Hp.
  injection Hp as Hs Hc.
  split; [apply Hzero; lra |]. split; [apply Hzero; lra |].
  rewrite Hsame. split; apply Hzero; ring.
Qed.

(** 360 points, 12 lobes, amplitude 1, outer radius 10: the first sample of
    the polyline is at angle 0 and the last at angle 360, 360 degrees apart
    and not within 1e-6 of each other. *)
Lemma guilloche_angles_a_turn_apart :
  hd (0, 0) (guilloche_points 0 0 10 12 1 360)
  = polar 0 0 (guilloche_radius 10 1 12 360 0) (guilloche_angle 360 0) /\
  last (guilloche_points 0 0 10 12 1 360) (0, 0)
  = polar 0 0 (guilloche_radius 10 1 12 360 360) (guilloche_angle 360 360) /\
  guilloche_angle 360 0 = 0 /\
  guilloche_angle 360 360 = 360 /\
  ~ Rabs (guilloche_angle 360 360 - guilloche_angle 360 0) <= 1e-6.
Proof.
  assert (Ha0 : guilloche_angle 360 0 = 0) by apply guilloche_angle_start.
  assert (Ha1 : guilloche_angle 360 360 = 360) by (apply guilloche_angle_end; lia).
  split; [exact (guilloche_points_first 0 0 10 12 1 360) |].
  split; [exact (guilloche_points_last 0 0 10 12 1 360) |].
  split; [exact Ha0 |]. split; [exact Ha1 |].
  rewrite Ha0, Ha1. rewrite Rabs_right by lra. lra.
Qed.

(** C2 (as amended).  The guilloche generator raises no error for a lobe
    count below 2 or a point count below 200: it clamps the lobe count up to
    2 and the point count up to 200 and draws the curve with the clamped
    values, one path through at least 201 sample points. *)
Theorem guilloche_clamps_parameters :
  forall cx cy r_outer lobes amplitude points w c op,
    (lobes < 2 \/ points < 200)%Z ->
    pattern_guilloche cx cy r_outer lobes amplitude points w c op
    = pattern_guilloche cx cy r_outer (Z.max 2 lobes) amplitude (Z.max 200 points) w c op /\
    (lobes < 2 ->
     pattern_guilloche cx cy r_outer lobes amplitude points w c op
     = pattern_guilloche cx cy r_outer 2 amplitude points w c op)%Z /\
    (points < 200 ->
     pattern_guilloche cx cy r_outer lobes amplitude points w c op
     = pattern_guilloche cx cy r_outer lobes amplitude 200 w c op)%Z /\
    exists pts,
      pattern_guilloche cx cy r_outer lobes amplitude points w c op
      = [PathN pts (curve_style w c op)] /\
      List.length pts = Z.to_nat (Z.max 200 points + 1) /\
      (201 <= List.length pts)%nat.
Proof.
  intros cx cy r_outer lobes amplitude points w c op _.
  unfold pattern_guilloche, guilloche_points.
  split; [| split; [| split]].
  - replace (Z.max 2 (Z.max 2 lobes)) with (Z.max 2 lobes) by lia.
    now replace (Z.max 200 (Z.max 200 points)) with (Z.max 200 points) by lia.
  - intros Hl. now replace (Z.max 2 lobes) with (Z.max 2 2) by lia.
  - intros Hp. now replace (Z.max 200 points) with (Z.max 200 200) by lia.
  - eexists. split; [reflexivity |].
    rewrite length_map, py_range_length. split; [f_equal |]; lia.
Qed.

Lemma guilloche_clamps_parameters_witness :
  (1 < 2 \/ 100 < 200)%Z /\
  exists pts,
    pattern_guilloche 0 0 10 1 1 100 1 "#000000" 1
    = [PathN pts (curve_style 1 "#000000" 1)] /\
    List.length pts = Z.to_nat (Z.max 200 100 + 1) /\
    (201 <= List.length pts)%nat.
Proof.
  split; [left; lia |].
  apply (guilloche_clamps_parameters 0 0 10 1 1 100 1 "#000000" 1). left. lia.
Defined.

(** One lobe and 100 points, both below the stated minima: the call made by
    [_draw_one] returns, with a path of 201 points. *)
Lemma guilloche_below_minima_returns :
  (1 < 2)%Z /\ (100 < 200)%Z /\
  exists pts,
    draw_one default_options mm_document 1 0 0 10 0 Guilloche 1 "#000000" 1
             (set_lobes 1 (set_points 100 no_overrides))
    = Returned [PathN pts (curve_style 1 "#000000" 1)] /\
    List.length pts = 201%nat.
Proof.
  split; [lia |]. split; [lia |].
  exists (guilloche_points 0 0 10 1 (mm_to_uu mm_document (amplitude_mm default_options)) 100).
  split; [reflexivity |].
  now rewrite guilloche_points_length.
Qed.

(** The sample radius stays within [amplitude] of the base radius. *)
Lemma guilloche_radius_bounds (r_outer amplitude : R) (lobes points i : Z) :
  Rmax 0 (r_outer - amplitude) - Rabs amplitude
  <= guilloche_radius r_outer amplitude lobes points i
  <= Rmax 0 (r_outer - amplitude) + Rabs amplitude.
Proof.
  unfold guilloche_radius. replace 0.0 with 0 by lra.
  pose proof (COS_bound (IZR lobes * guilloche_t points i)) as [Hlo Hhi].
  set (cs := cos (IZR lobes * guilloche_t points i)) in *.
  unfold Rabs. destruct (Rcase_abs amplitude); split; nra.
Qed.

(** C7 (as amended).  Every radius the concentric generator uses is at
    least [max(0, r_inner)], hence non-negative, when the spacing is not
    negative: a negative inner radius is clamped to 0.  Every sample radius
    of the guilloche generator is non-negative when the amplitude is at most
    the base radius in absolute value,
    [|amplitude| <= max(0, r_outer - amplitude)], in particular when
    [0 <= 2 * amplitude <= r_outer]. *)
Theorem radii_nonnegative_within_bounds :
  (forall fuel r_outer r_inner spacing x,
     0 <= spacing ->
     In x (fst (concentric_radii fuel r_outer r_inner spacing)) ->
     0 <= x /\ r_inner <= x) /\
  (forall r_outer amplitude lobes points i,
     Rabs amplitude <= Rmax 0 (r_outer - amplitude) ->
     0 <= guilloche_radius r_outer amplitude lobes points i) /\
  (forall r_outer amplitude lobes points i,
     0 <= amplitude -> 2 * amplitude <= r_outer ->
     0 <= guilloche_radius r_outer amplitude lobes points i).
Proof.
  split; [| split].
  - intros fuel r_outer r_inner spacing x Hs Hin.
    unfold concentric_radii in Hin. replace 0.0 with 0 in Hin by lra.
    apply concentric_loop_lower_bound in Hin; [| assumption].
    pose proof (Rmax_l 0 r_inner). pose proof (Rmax_r 0 r_inner). lra.
  - intros r_outer amplitude lobes points i Ha.
    pose proof (guilloche_radius_bounds r_outer amplitude lobes points i). lra.
  - intros r_outer amplitude lobes points i Ha Hr.
    pose proof (guilloche_radius_bounds r_outer amplitude lobes points i) as [Hlo _].
    rewrite (Rabs_right amplitude) in Hlo by lra.
    pose proof (Rmax_r 0 (r_outer - amplitude)). lra.
Qed.

Lemma radii_nonnegative_within_bounds_witness :
  (0 <= 2 /\ In 4 (fst (concentric_radii 7 10 (-1) 2)) /\ 0 <= 4 /\ -1 <= 4) /\
  (Rabs 1 <= Rmax 0 (10 - 1) /\ 0 <= guilloche_radius 10 1 12 1200 7) /\
  (0 <= 1 /\ 2 * 1 <= 10 /\ 0 <= guilloche_radius 10 1 12 1200 7).
Proof.
  destruct radii_nonnegative_within_bounds as [Hc [Hg Hh]].
  assert (Hin : In 4 (fst (concentric_radii 7 10 (-1) 2))).
  { unfold concentric_radii.
    rewrite (concentric_loop_exact 10 2 6); [| | | lia].
    - simpl. right. right. left. unfold Rmax. destruct (Rle_dec 0.0 (-1)); lra.
    - intros k Hk. unfold Rmax. destruct (Rle_dec 0.0 (-1)); [lra |].
      do 6 (destruct k as [| k]; [simpl; lra |]). lia.
    - unfold Rmax. destruct (Rle_dec 0.0 (-1)); [lra |]. simpl. lra. }
  assert (Hb : Rabs 1 <= Rmax 0 (10 - 1)).
  { rewrite Rabs_R1. unfold Rmax. destruct (Rle_dec 0 (10 - 1)); lra. }
  split; [| split].
  - split; [lra |]. split; [exact Hin |].
    apply (Hc 7%nat 10 (-1) 2 4); [lra | exact Hin].
  - split; [exact Hb |]. apply Hg. exact Hb.
  - split; [lra |]. split; [lra |]. apply Hh; lra.
Defined.

(** Outer radius 10, amplitude 6, 2 lobes, 200 points: the sample of index
    50 is one of the points of the polyline and has radius -2. *)
Lemma guilloche_negative_radius :
  In (polar 0 0 (guilloche_radius 10 6 2 200 50) (guilloche_angle 200 50))
     (guilloche_points 0 0 10 2 6 200) /\
  guilloche_radius 10 6 2 200 50 = -2 /\
  ~ 0 <= guilloche_radius 10 6 2 200 50.
Proof.
  assert (Hr : guilloche_radius 10 6 2 200 50 = -2).
  { unfold guilloche_radius, guilloche_t.
    replace (2 * (2.0 * PI * (50 / 200))) with PI by lra.
    rewrite cos_PI. unfold Rmax. destruct (Rle_dec 0.0 (10 - 6)); lra. }
  split; [| split; [exact Hr | rewrite Hr; lra]].
  unfold guilloche_points. change (Z.max 2 2) with 2%Z. change (Z.max 200 200) with 200%Z.
  apply (in_map (fun i => polar 0 0 (guilloche_radius 10 6 2 200 i) (guilloche_angle 200 i))).
  apply in_py_range. lia.
Qed.

(** ** Crosshatch *)

Lemma hatch_count_floor (r_outer spacing : R) :
  0 < spacing -> 0 <= r_outer ->
  hatch_count (r_outer * 2.2) spacing = (Zfloor (r_outer * 2.2 / spacing) + 3)%Z.
Proof.
  intros Hs Hr. unfold hatch_count. rewrite py_int_nonneg; [reflexivity |].
  apply div_nonneg; lra.
Qed.

Lemma hatch_count_at_least_3 (r_outer spacing : R) :
  0 < spacing -> 0 <= r_outer -> (3 <= hatch_count (r_outer * 2.2) spacing)%Z.
Proof.
  intros Hs Hr. rewrite hatch_count_floor by assumption.
  assert (0 <= Zfloor (r_outer * 2.2 / spacing))%Z; [| lia].
  apply (Zfloor_lub 0). simpl. apply div_nonneg; lra.
Qed.

Lemma in_hatch_offsets (r_outer spacing d : R) :
  In d (hatch_offsets r_outer spacing) <->
  exists i, (hatch_start (hatch_count (r_outer * 2.2) spacing) <= i
             < hatch_end (hatch_count (r_outer * 2.2) spacing))%Z /\
            d = IZR i * spacing.
Proof.
  unfold hatch_offsets. cbv zeta. rewrite in_map_iff. split.
  - intros [i [Hd Hi]]. exists i. split; [now apply in_py_range | now symmetry].
  - intros [i [Hi Hd]]. exists i. split; [now symmetry | now apply in_py_range].
Qed.

Lemma hatch_offset_index_unique (spacing : R) (i j : Z) :
  0 < spacing -> IZR i * spacing = IZR j * spacing -> i = j.
Proof.
  intros Hs H. apply eq_IZR. apply Rmult_eq_reg_r with spacing; lra.
Qed.

(** Each family drawn by [pattern_crosshatch] has one line per offset. *)
Lemma pattern_crosshatch_families (cx cy r_outer spacing angle_deg : R) (double : bool)
    (w : R) (c : string) (op : R) :
  spacing <> 0 ->
  exists lines,
    pattern_crosshatch cx cy r_outer spacing angle_deg double w c op = Returned lines /\
    lines = (add_set cx cy r_outer spacing angle_deg w c op
             ++ (if double then add_set cx cy r_outer spacing (angle_deg + 90.0) w c op
                 else []))%list /\
    List.length lines
    = ((if double then 2 else 1) * List.length (hatch_offsets r_outer spacing))%nat.
Proof.
  intros Hs. unfold pattern_crosshatch.
  destruct (Req_dec_T spacing 0) as [E | _]; [contradiction |].
  destruct double; eexists; (split; [reflexivity |]); (split; [now rewrite ?app_nil_r |]).
  - rewrite length_app. unfold add_set. rewrite !length_map. lia.
  - unfold add_set. rewrite !length_map. lia.
Qed.

(** C5 (as amended).  For a positive spacing and a non-negative outer
    radius, each family of parallel lines is built from
    [count = floor(size / spacing) + 3] with [size = 2.2 * r_outer]; the
    perpendicular offsets are the multiples [i * spacing] for the integers
    [i] from [floor(-count / 2)] to [floor(count / 2)] inclusive, [count + 1]
    of them.  The range is symmetric around 0 when [count] is even.  When
    [count] is odd it has one more offset on the negative side: the first
    offset, [floor(-count / 2) * spacing], has no mirror image, every other
    offset has one.  A call draws one family, or two with [double], of one
    line per offset. *)
Theorem crosshatch_offsets_range :
  forall r_outer spacing,
    0 < spacing -> 0 <= r_outer ->
    let size := r_outer * 2.2 in
    let count := hatch_count size spacing in
    let offs := hatch_offsets r_outer spacing in
    (forall cx cy angle_deg double w c op,
       exists lines,
         pattern_crosshatch cx cy r_outer spacing angle_deg double w c op
         = Returned lines /\
         List.length lines = ((if double then 2 else 1) * List.length offs)%nat) /\
    count = (Zfloor (size / spacing) + 3)%Z /\
    (forall d, In d offs <->
               exists i, ((- count) / 2 <= i <= count / 2)%Z /\ d = IZR i * spacing) /\
    List.length offs = Z.to_nat (count + 1) /\
    (Z.even count = true -> forall d, In d offs -> In (- d) offs) /\
    (Z.odd count = true ->
       In (IZR ((- count) / 2) * spacing) offs /\
       ~ In (- (IZR ((- count) / 2) * spacing)) offs /\
       forall d, In d offs -> d <> IZR ((- count) / 2) * spacing -> In (- d) offs).
Proof.
  intros r_outer spacing Hs Hr size count offs.
  assert (Hc3 : (3 <= count)%Z) by (apply hatch_count_at_least_3; assumption).
  assert (Hin : forall d, In d offs <->
                  exists i, ((- count) / 2 <= i <= count / 2)%Z /\ d = IZR i * spacing).
  { intros d. unfold offs. rewrite in_hatch_offsets.
    fold size. fold count. unfold hatch_start, hatch_end.
    split; intros [i [Hi Hd]]; exists i; (split; [lia | exact Hd]). }
  assert (Hneg : forall i, - (IZR i * spacing) = IZR (- i) * spacing).
  { intros i. rewrite opp_IZR. ring. }
  split.
  { intros cx cy angle_deg double w c op.
    destruct (pattern_crosshatch_families cx cy r_outer spacing angle_deg double w c op)
      as [lines [Hl [_ Hn]]]; [lra |].
    now exists lines. }
  split; [apply hatch_count_floor; assumption |].
  split; [exact Hin |].
  split.
  { unfold offs, hatch_offsets. fold size. fold count.
    rewrite length_map, py_range_length. unfold hatch_start, hatch_end.
    f_equal. Z.div_mod_to_equations. lia. }
  split.
  - intros Heven d Hd. apply Z.even_spec in Heven. destruct Heven as [m Hm].
    apply Hin in Hd. destruct Hd as [i [Hi ->]]. apply Hin.
    exists (- i)%Z. split; [| apply Hneg].
    revert Hi. rewrite Hm. Z.div_mod_to_equations. lia.
  - intros Hodd. apply Z.odd_spec in Hodd. destruct Hodd as [m Hm].
    split; [| split].
    + apply Hin. exists ((- count) / 2)%Z. split; [| reflexivity].
      rewrite Hm. Z.div_mod_to_equations. lia.
    + intros Hd. apply Hin in Hd. destruct Hd as [j [Hj Hd]].
      rewrite Hneg in Hd. apply hatch_offset_index_unique in Hd; [| assumption].
      revert Hj. rewrite <- Hd, Hm. Z.div_mod_to_equations. lia.
    + intros d Hd Hne. apply Hin in Hd. destruct Hd as [i [Hi ->]].
      assert (i <> (- count) / 2)%Z by (intros ->; now apply Hne).
      apply Hin. exists (- i)%Z. split; [| apply Hneg].
      revert Hi H. rewrite Hm. Z.div_mod_to_equations. lia.
Qed.

Lemma hatch_count_example : hatch_count (1 * 2.2) 1 = 5%Z.
Proof.
  unfold hatch_count. rewrite (py_int_eq _ 2); [reflexivity | lra | lra].
Qed.

Lemma crosshatch_offsets_range_witness :
  0 < 1 /\ 0 <= 1 /\
  hatch_count (1 * 2.2) 1 = (Zfloor (1 * 2.2 / 1) + 3)%Z /\
  List.length (hatch_offsets 1 1) = 6%nat.
Proof.
  split; [lra |]. split; [lra |].
  destruct (crosshatch_offsets_range 1 1) as [_ [Hc [_ [Hl _]]]]; [lra | lra |].
  split; [exact Hc |].
  rewrite Hl, hatch_count_example. reflexivity.
Defined.

(** Outer radius 1 and spacing 1: [count] is 5, the offset -3 is drawn and
    the offset 3 is not.  Outer radius -1 and spacing 1: [count] is 1, not
    [floor(-2.2) + 3 = 0]. *)
Lemma crosshatch_offsets_asymmetric :
  (0 < 1 /\
   hatch_count (1 * 2.2) 1 = 5%Z /\
   In (-3) (hatch_offsets 1 1) /\ ~ In (- (-3)) (hatch_offsets 1 1)) /\
  (0 < 1 /\
   hatch_count (-1 * 2.2) 1 = 1%Z /\
   (Zfloor (-1 * 2.2 / 1) + 3)%Z = 0%Z).
Proof.
  split.
  - split; [lra |]. split; [apply hatch_count_example |]. split.
    + apply in_hatch_offsets. rewrite hatch_count_example.
      exists (-3)%Z. split; [vm_compute; split; [discriminate | reflexivity] | lra].
    + intros H. apply in_hatch_offsets in H. rewrite hatch_count_example in H.
      destruct H as [i [Hi Hd]].
      assert (Hi3 : i = 3%Z).
      { apply eq_IZR. lra. }
      subst i. vm_compute in Hi. destruct Hi as [_ Hi]. discriminate.
  - split; [lra |]. split.
    + unfold hatch_count, py_int.
      destruct (Rle_dec 0 (-1 * 2.2 / 1)) as [H | _]; [lra |].
      unfold Zceil. rewrite (Zfloor_eq 2); [reflexivity | lra].
    + rewrite (Zfloor_eq (-3)); [reflexivity | lra].
Qed.

(** ** Per-layer variation *)

Lemma pow_decay (d : R) (i : nat) : 0 < d < 1 -> 0 < d ^ i /\ d ^ S i <= d ^ i.
Proof.
  intros Hd. assert (Hp : 0 < d ^ i) by (apply pow_lt; lra).
  split; [assumption |]. simpl. nra.
Qed.

Lemma clamp_monotone (x y : R) : x <= y -> Rmax 0.02 (Rmin 1.0 x) <= Rmax 0.02 (Rmin 1.0 y).
Proof.
  intros Hxy. clamp_cases.
Qed.

Lemma clamp_range (x : R) : 0.02 <= Rmax 0.02 (Rmin 1.0 x) <= 1.0.
Proof.
  clamp_cases.
Qed.

Lemma clamp_of_negative (x : R) : x <= 0 -> Rmax 0.02 (Rmin 1.0 x) = 0.02.
Proof.
  intros Hx. clamp_cases.
Qed.

(** C6 (as amended).  In auto-complex mode with [stroke_decay] and
    [opacity_decay] in (0,1) and a base stroke width that is not negative,
    the stroke width [stroke_0 * stroke_decay^i] and the opacity
    [clamp(opacity_0 * opacity_decay^i, 0.02, 1.0)] of layer [i+1] are at
    most those of layer [i], and every opacity lies in [0.02, 1.0]. *)
Theorem decay_monotone :
  forall (o : options) (base_stroke base_opacity : R) (i : nat),
    0 < stroke_decay o < 1 ->
    0 < opacity_decay o < 1 ->
    0 <= base_stroke ->
    layer_stroke o base_stroke (S i) <= layer_stroke o base_stroke i /\
    layer_opacity o base_opacity (S i) <= layer_opacity o base_opacity i /\
    0.02 <= layer_opacity o base_opacity i <= 1.0.
Proof.
  intros o base_stroke base_opacity i Hs Ho Hb.
  unfold layer_stroke, layer_opacity.
  destruct (pow_decay (stroke_decay o) i Hs) as [Hsp Hsd].
  destruct (pow_decay (opacity_decay o) i Ho) as [Hop Hod].
  split; [nra |]. split; [| apply clamp_range].
  destruct (Rle_dec 0 base_opacity) as [Hpos | Hneg].
  - apply clamp_monotone. nra.
  - assert (0 < opacity_decay o ^ S i) by (apply pow_lt; lra).
    rewrite !clamp_of_negative by nra. lra.
Qed.

Lemma decay_monotone_witness :
  0 < stroke_decay complex_options < 1 /\
  0 < opacity_decay complex_options < 1 /\
  0 <= mm_to_uu mm_document (stroke_mm complex_options) /\
  layer_stroke complex_options (mm_to_uu mm_document (stroke_mm complex_options)) 3
  <= layer_stroke complex_options (mm_to_uu mm_document (stroke_mm complex_options)) 2 /\
  layer_opacity complex_options (stroke_opacity_opt complex_options) 3
  <= layer_opacity complex_options (stroke_opacity_opt complex_options) 2 /\
  0.02 <= layer_opacity complex_options (stroke_opacity_opt complex_options) 2 <= 1.0.
Proof.
  assert (Hs : 0 < stroke_decay complex_options < 1) by (simpl; lra).
  assert (Ho : 0 < opacity_decay complex_options < 1) by (simpl; lra).
  assert (Hb : 0 <= mm_to_uu mm_document (stroke_mm complex_options)) by (cbn; lra).
  split; [exact Hs |]. split; [exact Ho |]. split; [exact Hb |].
  exact (decay_monotone complex_options _ _ 2 Hs Ho Hb).
Defined.

(** Auto-complex mode with a stroke width of -1 mm and the default decay
    0.85: the stroke width of layer 1 is -0.85, above the -1 of layer 0. *)
Lemma negative_stroke_grows :
  auto_complex (with_stroke_mm (-1) complex_options) = true /\
  0 < stroke_decay (with_stroke_mm (-1) complex_options) < 1 /\
  0 < opacity_decay (with_stroke_mm (-1) complex_options) < 1 /\
  mm_to_uu mm_document (stroke_mm (with_stroke_mm (-1) complex_options)) = -1 /\
  layer_stroke (with_stroke_mm (-1) complex_options) (-1) 0 = -1 /\
  layer_stroke (with_stroke_mm (-1) complex_options) (-1) 1 = -0.85 /\
  ~ layer_stroke (with_stroke_mm (-1) complex_options) (-1) 1
    <= layer_stroke (with_stroke_mm (-1) complex_options) (-1) 0.
Proof.
  split; [reflexivity |].
  split; [simpl; lra |]. split; [simpl; lra |]. split; [reflexivity |].
  unfold layer_stroke. simpl. repeat split; lra.
Qed.

Lemma py_int_towards_zero (x : R) :
  (0 <= x -> IZR (py_int x) <= x < IZR (py_int x) + 1) /\
  (x < 0 -> IZR (py_int x) - 1 < x <= IZR (py_int x)).
Proof.
  unfold py_int. destruct (Rle_dec 0 x) as [Hx | Hx]; split; intros H; try lra.
  - apply Zfloor_bound.
  - apply Zceil_bound.
Qed.

Section Variation.

Context {G : Type} {RS : RandomSource G}.

Variables (o : options) (svg : svg_doc).

Lemma randint_returns (a b : Z) (g : G) :
  (a <= b)%Z -> randint a b g = Returned (next_int g a b).
Proof. intros H. unfold randint. now rewrite (proj2 (Z.leb_le a b) H). Qed.

(** What [vary] leaves in a guilloche layer's overrides when the plan gave
    no point count. *)
Lemma vary_guilloche_points (i : nat) (ov : overrides) (g : G) :
  ov_points ov = None ->
  (0 <= lobe_jitter o)%Z \/ ov_lobes ov <> None ->
  exists ov' g',
    vary o svg i Guilloche ov g = Returned (ov', g') /\
    ov_points ov' = Some (layer_points o i).
Proof.
  intros Hpts Hret. unfold vary.
  destruct (ov_lobes ov) as [l |] eqn:El.
  - unfold bind, ret. cbn.
    destruct (ov_amplitude ov) as [a |] eqn:Ea; cbn; rewrite Hpts;
      eexists; eexists; (split; [reflexivity |]); reflexivity.
  - destruct Hret as [Hj | Hn]; [| congruence].
    unfold bind, ret. rewrite randint_returns by lia.
    destruct (next_int g (- lobe_jitter o) (lobe_jitter o)) as [j g'].
    cbn. destruct (ov_amplitude ov) as [a |] eqn:Ea; cbn; rewrite Hpts;
      eexists; eexists; (split; [reflexivity |]); reflexivity.
Qed.

End Variation.

(** C4 (as amended).  In auto-complex mode, a guilloche layer of index [i]
    whose plan entry fixes no point count is given
    [max(800, int(base_points * (1 + 0.10 * i)))] points, where [int]
    truncates towards zero (the floor for the non-negative values that
    matter here), not the nearest integer.  The variation step never loops;
    it returns these overrides unless [randint] is handed an empty range,
    which takes a negative [lobe_jitter] on a layer whose lobes the plan does
    not fix. *)
Theorem layer_points_truncated :
  forall (G : Type) (RS : RandomSource G) (o : options) (svg : svg_doc)
         (i : nat) (ov : overrides) (g : G),
    ov_points ov = None ->
    let x := IZR (points o) * (1.0 + 0.10 * INR i) in
    match vary o svg i Guilloche ov g with
    | Returned (ov', _) => ov_points ov' = Some (Z.max 800 (py_int x))
    | Raised e => e = ValueError /\ (lobe_jitter o < 0)%Z /\ ov_lobes ov = None
    | Unfinished => False
    end /\
    ((0 <= lobe_jitter o)%Z \/ ov_lobes ov <> None ->
     exists ov' g', vary o svg i Guilloche ov g = Returned (ov', g')) /\
    (0 <= x -> IZR (py_int x) <= x < IZR (py_int x) + 1) /\
    (x < 0 -> IZR (py_int x) - 1 < x <= IZR (py_int x)).
Proof.
  intros G RS o svg i ov g Hpts x. split; [| split].
  - destruct (ov_lobes ov) as [l |] eqn:El.
    + destruct (vary_guilloche_points o svg i ov g Hpts) as [ov' [g' [Hv Hp]]];
        [right; congruence |].
      now rewrite Hv.
    + destruct (Z_le_gt_dec 0 (lobe_jitter o)) as [Hj | Hj].
      * destruct (vary_guilloche_points o svg i ov g Hpts) as [ov' [g' [Hv Hp]]];
          [now left |].
        now rewrite Hv.
      * unfold vary. rewrite El. unfold bind, randint.
        replace (- lobe_jitter o <=? lobe_jitter o)%Z with false
          by (symmetry; apply Z.leb_gt; lia).
        repeat split. lia.
  - intros Hret.
    destruct (vary_guilloche_points o svg i ov g Hpts Hret) as [ov' [g' [Hv _]]].
    now exists ov', g'.
  - apply py_int_towards_zero.
Qed.

Lemma layer_points_truncated_witness :
  ov_points no_overrides = None /\
  match vary complex_options mm_document 2 Guilloche no_overrides (seed_random 1) with
  | Returned (ov', _) =>
      ov_points ov'
      = Some (Z.max 800 (py_int (IZR (points complex_options) * (1.0 + 0.10 * INR 2))))
  | Raised e =>
      e = ValueError /\ (lobe_jitter complex_options < 0)%Z /\ ov_lobes no_overrides = None
  | Unfinished => False
  end.
Proof.
  split; [reflexivity |].
  apply (layer_points_truncated Z lcg_source complex_options mm_document 2
                                no_overrides (seed_random 1)).
  reflexivity.
Defined.

(** 1207 base points, layer 1 of the preset "rosette_stack": the layer is
    given 1327 points, while the integer nearest to 1207 * 1.1 = 1327.7 is
    1328. *)
Lemma layer_points_not_rounded :
  (exists ov' g',
     vary (sample_options true "rosette_stack" 4 1207) mm_document 1 Guilloche
          no_overrides (seed_random 1) = Returned (ov', g') /\
     ov_points ov' = Some 1327%Z) /\
  (forall n : Z, Rabs (1207 * (1 + 0.10 * 1) - IZR n) <= 1 / 2 -> Z.max 800 n = 1328%Z).
Proof.
  split.
  - destruct (vary_guilloche_points (sample_options true "rosette_stack" 4 1207)
                mm_document 1 no_overrides (seed_random 1)) as [ov' [g' [Hv Hp]]];
      [reflexivity | left; vm_compute; discriminate |].
    exists ov', g'. split; [exact Hv |]. rewrite Hp. f_equal.
    unfold layer_points. cbn [points sample_options INR].
    rewrite (py_int_eq _ 1327); [reflexivity | lra | lra].
  - intros n Hn. revert Hn. unfold Rabs.
    destruct (Rcase_abs (1207 * (1 + 0.10 * 1) - IZR n)); intros Hn.
    all: assert (H1 : (1327 < n)%Z) by (apply lt_IZR; lra).
    all: assert (H2 : (n < 1329)%Z) by (apply lt_IZR; lra).
    all: lia.
Qed.

(** ** Presets and layer plans *)

Section Plans.

Context {G : Type} {RS : RandomSource G}.

Variables (o : options) (svg : svg_doc).

Lemma resolve_plan_count :
  snd (resolve_plan o svg) = Z.max (Z.max 1 (layers o)) (preset_minimum (preset_name o)).
Proof.
  unfold resolve_plan, preset_minimum, requested_layers.
  destruct (String.eqb (preset_name o) "breguet"); [reflexivity |].
  destruct (String.eqb (preset_name o) "modern"); [reflexivity |].
  destruct (String.eqb (preset_name o) "pocketwatch"); simpl; lia.
Qed.

Lemma preset_minimum_positive : (1 <= preset_minimum (preset_name o))%Z.
Proof.
  unfold preset_minimum.
  destruct (String.eqb (preset_name o) "breguet"); [lia |].
  destruct (String.eqb (preset_name o) "modern"); lia.
Qed.

Lemma breguet_resolved :
  complex_preset o = "breguet"%string ->
  resolve_plan o svg = (breguet_plan o svg, Z.max (Z.max 1 (layers o)) 4).
Proof.
  intros Hp. unfold resolve_plan, preset_name, requested_layers. now rewrite Hp.
Qed.

(** The results of [run_layers] are as many as the indices it ran over. *)
Lemma run_layers_length (step : nat -> rand node) (idxs : list nat) :
  forall (g g' : G) (lgs : list node),
    run_layers step idxs g = Returned (lgs, g') ->
    List.length lgs = List.length idxs.
Proof.
  induction idxs as [| i rest IH]; intros g g' lgs H.
  - injection H as <- _. reflexivity.
  - simpl in H. unfold bind in H.
    destruct (step i g) as [[lg g1] | e |]; try discriminate.
    destruct (run_layers step rest g1) as [[lgs' g2] | e |] eqn:E; try discriminate.
    injection H as <- _. simpl. f_equal. eapply IH. exact E.
Qed.

(** [run_layers] returns when every step does. *)
Lemma run_layers_returns (step : nat -> rand node) (idxs : list nat) :
  (forall i g, exists lg g', step i g = Returned (lg, g')) ->
  forall g : G, exists lgs g', run_layers step idxs g = Returned (lgs, g').
Proof.
  intros Hstep. induction idxs as [| i rest IH]; intros g.
  - now exists [], g.
  - destruct (Hstep i g) as [lg [g1 H1]]. destruct (IH g1) as [lgs [g2 H2]].
    exists (lg :: lgs), g2. simpl. unfold bind. now rewrite H1, H2.
Qed.

(** Each result of [run_layers] is the result of the step at its index. *)
Lemma run_layers_steps (step : nat -> rand node) (idxs : list nat) :
  forall (g g' : G) (lgs : list node),
    run_layers step idxs g = Returned (lgs, g') ->
    Forall2 (fun i lg => exists g1 g2, step i g1 = Returned (lg, g2)) idxs lgs.
Proof.
  induction idxs as [| i rest IH]; intros g g' lgs H.
  - injection H as <- _. constructor.
  - simpl in H. unfold bind in H.
    destruct (step i g) as [[lg g1] | e |] eqn:E1; try discriminate.
    destruct (run_layers step rest g1) as [[lgs' g2] | e |] eqn:E2; try discriminate.
    injection H as <- _. constructor; [now exists g, g1 | eapply IH; exact E2].
Qed.

(** What a layer step that returns has done: the shapes of the layer group
    are those [_draw_one] draws for the plan's pattern type at this index,
    with this layer's stroke width and opacity. *)
Lemma layer_step_drawn (fuel : nat) (plan : list plan_entry) (pid : string)
    (cx cy r_outer r_inner bs bo : R) (i : nat) (g g' : G) (lg : node) :
  layer_step o svg fuel plan pid cx cy r_outer r_inner bs bo i g = Returned (lg, g') ->
  exists id label tr shapes ov,
    lg = GroupN id label tr None shapes /\
    draw_one o svg fuel cx cy r_outer r_inner (fst (plan_at plan i))
             (layer_stroke o bs i) (stroke_color o) (layer_opacity o bo i) ov
    = Returned shapes.
Proof.
  unfold layer_step. destruct (plan_at plan i) as [ptype ofn]. cbn [fst].
  unfold bind, uniform, lift, ret. intros H.
  destruct (ofn i g) as [[ov0 g1] | e |]; try discriminate.
  destruct (vary o svg i ptype ov0 g1) as [[ov g2] | e |]; try discriminate.
  destruct (next_uniform g2 (- rotate_jitter_deg o) (rotate_jitter_deg o)) as [rot g3].
  destruct (draw_one o svg fuel cx cy r_outer r_inner ptype (layer_stroke o bs i)
                     (stroke_color o) (layer_opacity o bo i) ov) as [shapes | e |] eqn:E;
    try discriminate.
  cbn [outcome_map] in H. injection H as <- _.
  unfold make_layer. do 5 eexists. split; [reflexivity | exact E].
Qed.

(** Every layer step of the preset "breguet" returns once the concentric
    generator does. *)
Lemma breguet_layer_returns (fuel : nat) (pid : string)
    (cx cy r_outer r_inner bs bo : R) (rings : list R) :
  (forall w c op,
     pattern_concentric fuel cx cy r_outer r_inner (mm_to_uu svg 0.45) w c op
     = Returned (circles_at cx cy w c op rings)) ->
  forall i g, exists lg g',
    layer_step o svg fuel (breguet_plan o svg) pid cx cy r_outer r_inner bs bo i g
    = Returned (lg, g').
Proof.
  intros Hc i g. unfold layer_step, plan_at.
  change (List.length (breguet_plan o svg)) with 4%nat.
  pose proof (Nat.mod_upper_bound i 4 ltac:(lia)) as Hlt.
  destruct (i mod 4)%nat as [| [| [| [| k]]]]; [| | | | lia];
    cbn [nth breguet_plan];
    unfold bind, ret, fixed_rosette, uniform, lift, vary, draw_one, bind, ret, randint;
    cbn [Z.leb Z.compare Z.opp Pos.compare Pos.compare_cont CompOpp get
         ov_ring_spacing ov_rays ov_lobes ov_amplitude ov_points outcome_map].
  - rewrite Hc. cbn [outcome_map].
    destruct (next_uniform g (- rotate_jitter_deg o) (rotate_jitter_deg o)) as [rot g'].
    eauto.
  - destruct (next_int g (-2) 2) as [j g1].
    cbn [get ov_ring_spacing ov_rays ov_lobes ov_amplitude ov_points outcome_map].
    destruct (next_uniform g1 (- rotate_jitter_deg o) (rotate_jitter_deg o)) as [rot g'].
    eauto.
  - destruct (next_uniform g (- rotate_jitter_deg o) (rotate_jitter_deg o)) as [rot g'].
    eauto.
  - destruct (next_int g (-6) 6) as [j g1].
    cbn [get ov_ring_spacing ov_rays ov_lobes ov_amplitude ov_points outcome_map].
    destruct (next_uniform g1 (- rotate_jitter_deg o) (rotate_jitter_deg o)) as [rot g'].
    eauto.
Qed.

(** A run with the preset "breguet" returns, given enough fuel for the rings
    of its concentric layers, and leaves one layer group per layer, each
    drawn by the generator the plan names at its index. *)
Lemma breguet_effect_returns :
  auto_complex o = true ->
  complex_preset o = "breguet"%string ->
  0 < mm_to_uu svg 0.45 ->
  exists fuel0 : nat, forall (fuel : nat) (hex : string),
    (fuel0 <= fuel)%nat ->
    exists d,
      effect o svg fuel hex = Returned d /\
      Forall2 (fun i lg => drawn_layer o svg fuel (fst (plan_at (breguet_plan o svg) i)) i lg)
              (seq 0 (Z.to_nat (Z.max (Z.max 1 (layers o)) 4))) (layer_groups d).
Proof.
  intros Hauto Hpreset Hspacing.
  destruct (pattern_concentric_returns
              (mm_to_uu svg ((dial_diameter_mm o
                              - (if outline_compensate_stroke o
                                 then outline_stroke_mm o else 0.0)) / 2.0))
              (mm_to_uu svg (Rmax 0.0 (inner_radius_mm o)))
              (mm_to_uu svg 0.45) Hspacing) as [n [_ Hn]].
  exists (S n). intros fuel hex Hfuel.
  unfold effect, drawn_layer. destruct (doc_center svg) as [cx cy]. cbn [fst snd].
  unfold pattern_children. rewrite Hauto. cbn [negb].
  rewrite (breguet_resolved Hpreset).
  match goal with
  | |- context [run_layers ?step ?idxs ?g] =>
      destruct (run_layers_returns step idxs
                  (breguet_layer_returns fuel _ cx cy _ _ _ _ _
                     (fun w c op => Hn fuel cx cy w c op ltac:(lia))) g)
        as [lgs [g' Hrun]];
      rewrite Hrun; pose proof (run_layers_steps step idxs g g' lgs Hrun) as Hsteps
  end.
  cbn [outcome_map fst]. eexists. split; [reflexivity |].
  unfold layer_groups. cbn [doc_children]. rewrite last_last.
  eapply Forall2_impl; [| exact Hsteps].
  intros i lg [g1 [g2 Hstep]]. eapply layer_step_drawn. exact Hstep.
Qed.

End Plans.

(** C8.  With preset "breguet" and a requested layer count of 1 the engine
    runs 4 layers, of kinds concentric, guilloche, sunburst, guilloche in
    this order: the plan resolves to these, and in auto-complex mode a run
    (on a document whose unit conversion is positive) returns with four
    layer groups drawn by these generators in this order.  For every preset,
    a requested layer count below the preset's minimum (4 for "breguet" and
    "modern", 1 for the others) is raised to that minimum, and the count is
    never lowered. *)
Theorem preset_minimum_enforced :
  forall (G : Type) (RS : RandomSource G) (o : options) (svg : svg_doc),
    (complex_preset o = "breguet"%string -> layers o = 1%Z ->
     snd (resolve_plan o svg) = 4%Z /\
     plan_kinds (fst (resolve_plan o svg)) (Z.to_nat (snd (resolve_plan o svg)))
     = [Concentric; Guilloche; Sunburst; Guilloche] /\
     (auto_complex o = true -> 0 < mm_to_uu svg 0.45 ->
      exists fuel0 : nat, forall (fuel : nat) (hex : string),
        (fuel0 <= fuel)%nat ->
        exists d l0 l1 l2 l3,
          effect o svg fuel hex = Returned d /\
          layer_groups d = [l0; l1; l2; l3] /\
          drawn_layer o svg fuel Concentric 0 l0 /\
          drawn_layer o svg fuel Guilloche 1 l1 /\
          drawn_layer o svg fuel Sunburst 2 l2 /\
          drawn_layer o svg fuel Guilloche 3 l3)) /\
    ((layers o < preset_minimum (preset_name o))%Z ->
     snd (resolve_plan o svg) = preset_minimum (preset_name o)) /\
    (layers o <= snd (resolve_plan o svg))%Z.
Proof.
  intros G RS o svg. split; [| split].
  - intros Hp Hl. rewrite breguet_resolved by assumption. rewrite Hl.
    split; [reflexivity |]. split; [reflexivity |].
    intros Hauto Hsp.
    destruct (breguet_effect_returns o svg Hauto Hp Hsp) as [fuel0 Hrun].
    exists fuel0. intros fuel hex Hfuel.
    destruct (Hrun fuel hex Hfuel) as [d [Hd Hall]].
    rewrite Hl in Hall. change (Z.to_nat (Z.max (Z.max 1 1) 4)) with 4%nat in Hall.
    cbn [seq] in Hall.
    inversion Hall as [| i0 l0 is0 ls0 H0 Hall0 Ei0 El0]; subst.
    inversion Hall0 as [| i1 l1 is1 ls1 H1 Hall1 Ei1 El1]; subst.
    inversion Hall1 as [| i2 l2 is2 ls2 H2 Hall2 Ei2 El2]; subst.
    inversion Hall2 as [| i3 l3 is3 ls3 H3 Hall3 Ei3 El3]; subst.
    inversion Hall3; subst.
    exists d, l0, l1, l2, l3. repeat split; try assumption. now symmetry.
  - intros Hlt. rewrite resolve_plan_count.
    pose proof (preset_minimum_positive o). lia.
  - rewrite resolve_plan_count. lia.
Qed.

Lemma preset_minimum_enforced_witness :
  complex_preset (sample_options true "breguet" 1 1200) = "breguet"%string /\
  layers (sample_options true "breguet" 1 1200) = 1%Z /\
  auto_complex (sample_options true "breguet" 1 1200) = true /\
  0 < mm_to_uu mm_document 0.45 /\
  (layers (sample_options true "breguet" 1 1200)
   < preset_minimum (preset_name (sample_options true "breguet" 1 1200)))%Z /\
  snd (resolve_plan (RS := lcg_source) (sample_options true "breguet" 1 1200) mm_document)
  = 4%Z /\
  (exists fuel0 : nat, forall (fuel : nat) (hex : string),
     (fuel0 <= fuel)%nat ->
     exists d l0 l1 l2 l3,
       effect (RS := lcg_source) (sample_options true "breguet" 1 1200) mm_document fuel hex
       = Returned d /\
       layer_groups d = [l0; l1; l2; l3] /\
       drawn_layer (sample_options true "breguet" 1 1200) mm_document fuel Concentric 0 l0 /\
       drawn_layer (sample_options true "breguet" 1 1200) mm_document fuel Guilloche 1 l1 /\
       drawn_layer (sample_options true "breguet" 1 1200) mm_document fuel Sunburst 2 l2 /\
       drawn_layer (sample_options true "breguet" 1 1200) mm_document fuel Guilloche 3 l3) /\
  snd (resolve_plan (RS := lcg_source) (sample_options true "breguet" 1 1200) mm_document)
  = preset_minimum (preset_name (sample_options true "breguet" 1 1200)).
Proof.
  destruct (preset_minimum_enforced Z lcg_source (sample_options true "breguet" 1 1200)
                                    mm_document) as [Hb [Hm _]].
  assert (Hsp : 0 < mm_to_uu mm_document 0.45) by (cbn; lra).
  split; [reflexivity |]. split; [reflexivity |]. split; [reflexivity |].
  split; [exact Hsp |]. split; [vm_compute; reflexivity |].
  destruct (Hb eq_refl eq_refl) as [H4 [_ Hrun]].
  split; [exact H4 |]. split; [exact (Hrun eq_refl Hsp) |].
  apply Hm. vm_compute. reflexivity.
Defined.

(** ** Determinism *)

(** C1 (as amended).  For fixed options and a fixed initial document, two
    runs of the generator have the same outcome up to the clip id: when one
    returns so does the other, the two documents hold the same shapes with
    the same coordinates in the same order, and they are equal once the
    random suffix of the clip-path id is disregarded.  With clipping off the
    two documents are identical. *)
Theorem runs_agree_up_to_clip_id :
  forall (G : Type) (RS : RandomSource G) (o : options) (svg : svg_doc) (fuel : nat)
         (hex1 hex2 : string),
    outcome_map doc_shapes (effect o svg fuel hex1)
    = outcome_map doc_shapes (effect o svg fuel hex2) /\
    outcome_map forget_clip_ids (effect o svg fuel hex1)
    = outcome_map forget_clip_ids (effect o svg fuel hex2) /\
    (clip_to_circle o = false -> effect o svg fuel hex1 = effect o svg fuel hex2).
Proof.
  intros G RS o svg fuel hex1 hex2.
  unfold effect. destruct (doc_center svg) as [cx cy].
  set (pc := pattern_children _ _ _ _ _ _ _ _ _ _).
  destruct pc as [kids | e |]; cbn [outcome_map]; [| repeat split; reflexivity ..].
  split; [| split].
  - f_equal. unfold doc_shapes. cbn [doc_children].
    rewrite !flat_map_app. reflexivity.
  - f_equal. unfold forget_clip_ids. cbn [doc_center doc_unittouu doc_defs doc_children].
    f_equal.
    + destruct (clip_to_circle o); [| reflexivity].
      cbn [option_map]. rewrite !map_app. reflexivity.
    + rewrite !map_app. cbn [map forget_clip].
      destruct (clip_to_circle o); reflexivity.
  - intros Hc. rewrite Hc. reflexivity.
Qed.

(** The default options (one guilloche layer, clipping on) on an empty
    document: two runs that draw different bits for the clip id return
    different documents. *)
Lemma clip_id_differs_between_runs :
  exists d1 d2,
    effect (RS := lcg_source) default_options mm_document 1 "3f9a1c" = Returned d1 /\
    effect (RS := lcg_source) default_options mm_document 1 "b07e42" = Returned d2 /\
    d1 <> d2.
Proof.
  eexists. eexists. split; [reflexivity |]. split; [reflexivity |].
  intros H. apply (f_equal (fun d => option_map (map clip_id) (doc_defs d))) in H.
  cbn in H. discriminate.
Qed.

(** * Further properties of the generator *)

(** ** Polar coordinates *)

Lemma sin2_cos2_mult (x : R) : sin x * sin x + cos x * cos x = 1.
Proof. pose proof (sin2_cos2 x) as H. unfold Rsqr in H. exact H. Qed.

Lemma polar_dist2 (cx cy r ang : R) : dist2 cx cy (polar cx cy r ang) = r * r.
Proof.
  unfold dist2, polar. cbn [fst snd].
  pose proof (sin2_cos2_mult (radians ang)) as H.
  replace ((cx + r * sin (radians ang) - cx) * (cx + r * sin (radians ang) - cx)
           + (cy - r * cos (radians ang) - cy) * (cy - r * cos (radians ang) - cy))
    with (r * r * (sin (radians ang) * sin (radians ang)
                   + cos (radians ang) * cos (radians ang))) by ring.
  rewrite H. ring.
Qed.

(** X1.  [polar] puts the point at distance [|r|] from the centre: the
    squared distance is [r * r], for any angle and any sign of [r]. *)
Theorem polar_distance :
  forall cx cy r ang, dist2 cx cy (polar cx cy r ang) = r * r.
Proof.
  intros cx cy r ang. unfold dist2, polar. cbn [fst snd].
  set (sn := sin (radians ang)). set (cs := cos (radians ang)).
  assert (Hunit : sn * sn + cs * cs = 1) by apply sin2_cos2_mult.
  replace ((cx + r * sn - cx) * (cx + r * sn - cx)
           + (cy - r * cs - cy) * (cy - r * cs - cy))
    with (r * r * (sn * sn + cs * cs)) by ring.
  rewrite Hunit. ring.
Qed.

Lemma radians_plus (a b : R) : radians (a + b) = radians a + radians b.
Proof. unfold radians. field. Qed.

Lemma radians_180 : radians 180 = PI.
Proof. unfold radians. field. Qed.

Lemma radians_360 (k : nat) : radians (360 * INR k) = 2 * INR k * PI.
Proof. unfold radians. field. Qed.

(** X2.  Angles are taken modulo full turns, and a negative radius is the
    same as a half turn: [polar] at [ang + 360 k] is [polar] at [ang], and
    [polar] with radius [-r] is [polar] with radius [r] at [ang + 180]. *)
Theorem polar_turns :
  forall cx cy r ang,
    (forall k : nat, polar cx cy r (ang + 360 * INR k) = polar cx cy r ang) /\
    polar cx cy (- r) ang = polar cx cy r (ang + 180).
Proof.
  intros cx cy r ang. split.
  - intros k. unfold polar. rewrite radians_plus, radians_360.
    now rewrite sin_period, cos_period.
  - unfold polar. rewrite radians_plus, radians_180, neg_sin, neg_cos.
    f_equal; ring.
Qed.

(** ** Integer ranges *)

Lemma nth_error_py_range (a b : Z) (k : nat) :
  (Z.of_nat k < b - a)%Z ->
  nth_error (py_range a b) k = Some (a + Z.of_nat k)%Z.
Proof.
  intros Hk. unfold py_range.
  rewrite nth_error_map, nth_error_seq.
  destruct (Nat.ltb_spec k (Z.to_nat (b - a))) as [_ | H]; [reflexivity | lia].
Qed.

(** ** Sunburst *)

(** X3.  The sunburst generator draws exactly [max(4, rays)] segments, so a
    ray count below 4 is raised to 4.  Ray [k] joins the points at radius
    [r_inner] and [r_outer] on the direction [k * (360 / n)] degrees, with
    [n] the clamped count: the first ray is at 0 degrees, consecutive rays
    are [360 / n] apart, and every direction is below 360 degrees. *)
Theorem sunburst_rays :
  forall cx cy r_outer r_inner rays w c op,
    let n := Z.max 4 rays in
    let shapes := pattern_sunburst cx cy r_outer r_inner rays w c op in
    List.length shapes = Z.to_nat n /\
    forall k : nat, (Z.of_nat k < n)%Z ->
      nth_error shapes k
      = Some (PathN [polar cx cy r_inner (INR k * (360 / IZR n));
                     polar cx cy r_outer (INR k * (360 / IZR n))]
                    (line_style w c op)) /\
      0 <= INR k * (360 / IZR n) < 360.
Proof.
  intros cx cy r_outer r_inner rays w c op n shapes.
  assert (Hn : (4 <= n)%Z) by (unfold n; lia).
  assert (Hnr : 0 < IZR n) by (apply IZR_lt; lia).
  split.
  - unfold shapes, pattern_sunburst. rewrite length_map, py_range_length.
    fold n. f_equal. lia.
  - intros k Hk. split.
    + unfold shapes, pattern_sunburst. fold n.
      rewrite nth_error_map, nth_error_py_range by lia. cbn [option_map].
      rewrite Z.add_0_l, <- INR_IZR_INZ.
      replace 360.0 with 360 by lra. reflexivity.
    + assert (Hkr : INR k < IZR n) by (rewrite INR_IZR_INZ; now apply IZR_lt).
      pose proof (pos_INR k) as Hk0.
      assert (Hstep : 0 < 360 / IZR n) by (apply Rdiv_lt_0_compat; lra).
      split; [apply Rmult_le_pos; lra |].
      replace 360 with (IZR n * (360 / IZR n)) at 2 by (field; lra).
      apply Rmult_lt_compat_r; assumption.
Qed.

(** X4.  Every segment of the sunburst is radial: its ends lie at distance
    [|r_inner|] and [|r_outer|] from the centre, and the centre is on the
    line through them. *)
Theorem sunburst_rays_radial :
  forall cx cy r_outer r_inner rays w c op shape,
    In shape (pattern_sunburst cx cy r_outer r_inner rays w c op) ->
    exists p q,
      shape = PathN [p; q] (line_style w c op) /\
      dist2 cx cy p = r_inner * r_inner /\
      dist2 cx cy q = r_outer * r_outer /\
      cross (direction (cx, cy) p) (direction (cx, cy) q) = 0.
Proof.
  intros cx cy r_outer r_inner rays w c op shape Hin.
  unfold pattern_sunburst in Hin. apply in_map_iff in Hin.
  destruct Hin as [i [<- _]].
  eexists. eexists. split; [reflexivity |].
  split; [apply polar_dist2 |]. split; [apply polar_dist2 |].
  unfold cross, direction, polar. cbn [fst snd]. ring.
Qed.

Lemma sunburst_rays_radial_witness :
  exists shape p q,
    In shape (pattern_sunburst 0 0 10 2 3 1 "#000000" 1) /\
    shape = PathN [p; q] (line_style 1 "#000000" 1) /\
    dist2 0 0 p = 2 * 2 /\ dist2 0 0 q = 10 * 10.
Proof.
  assert (Hin : In (PathN [polar 0 0 2 (IZR 0 * (360.0 / IZR (Z.max 4 3)));
                           polar 0 0 10 (IZR 0 * (360.0 / IZR (Z.max 4 3)))]
                          (line_style 1 "#000000" 1))
                   (pattern_sunburst 0 0 10 2 3 1 "#000000" 1)).
  { unfold pattern_sunburst.
    apply (in_map (fun i => PathN [polar 0 0 2 (IZR i * (360.0 / IZR (Z.max 4 3)));
                                   polar 0 0 10 (IZR i * (360.0 / IZR (Z.max 4 3)))]
                                  (line_style 1 "#000000" 1))).
    apply in_py_range. lia. }
  destruct (sunburst_rays_radial 0 0 10 2 3 1 "#000000" 1 _ Hin)
    as [p [q [Hs [Hp [Hq _]]]]].
  eexists. exists p, q. split; [exact Hin |]. split; [exact Hs |]. split; assumption.
Defined.

Lemma sunburst_rays_witness :
  (Z.of_nat 7 < Z.max 4 8)%Z /\
  List.length (pattern_sunburst 0 0 10 2 8 1 "#000000" 1) = 8%nat /\
  nth_error (pattern_sunburst 0 0 10 2 8 1 "#000000" 1) 7
  = Some (PathN [polar 0 0 2 (INR 7 * (360 / IZR (Z.max 4 8)));
                 polar 0 0 10 (INR 7 * (360 / IZR (Z.max 4 8)))]
                (line_style 1 "#000000" 1)) /\
  0 <= INR 7 * (360 / IZR (Z.max 4 8)) < 360.
Proof.
  destruct (sunburst_rays 0 0 10 2 8 1 "#000000" 1) as [Hlen Hray].
  split; [vm_compute; reflexivity |]. split; [exact Hlen |].
  apply (Hray 7%nat). vm_compute. reflexivity.
Defined.

(** ** Guilloche, continued *)

Lemma polar_of_degrees (cx cy r t : R) :
  polar cx cy r (degrees t) = (cx + r * sin t, cy - r * cos t).
Proof.
  unfold polar, radians, degrees.
  replace (t * (180 / PI) * (PI / 180)) with t by (field; apply PI_neq0).
  reflexivity.
Qed.

Lemma in_guilloche_points (cx cy r_outer : R) (lobes : Z) (amplitude : R) (points : Z)
    (p : point) :
  In p (guilloche_points cx cy r_outer lobes amplitude points) ->
  exists i,
    (0 <= i <= Z.max 200 points)%Z /\
    p = polar cx cy
              (guilloche_radius r_outer amplitude (Z.max 2 lobes) (Z.max 200 points) i)
              (guilloche_angle (Z.max 200 points) i).
Proof.
  unfold guilloche_points. intros Hin. apply in_map_iff in Hin.
  destruct Hin as [i [<- Hi]]. exists i. split; [| reflexivity].
  apply in_py_range in Hi. lia.
Qed.

Lemma guilloche_points_within (cx cy r_outer : R) (lobes : Z) (amplitude : R) (points : Z)
    (p : point) :
  0 <= amplitude -> amplitude <= r_outer ->
  In p (guilloche_points cx cy r_outer lobes amplitude points) ->
  dist2 cx cy p <= r_outer * r_outer.
Proof.
  intros Ha Hr Hin. apply in_guilloche_points in Hin. destruct Hin as [i [_ ->]].
  rewrite polar_dist2.
  pose proof (guilloche_radius_bounds r_outer amplitude (Z.max 2 lobes)
                (Z.max 200 points) i) as [Hlo Hhi].
  rewrite (Rabs_right amplitude) in Hlo, Hhi by lra.
  rewrite (Rmax_right 0 (r_outer - amplitude)) in Hlo, Hhi by lra.
  nra.
Qed.

(** X5.  With an amplitude between 0 and the outer radius the rosette stays
    on the dial: every point of the polyline is within [r_outer] of the
    centre, and the curve starts on the dial's edge at 12 o'clock. *)
Theorem guilloche_inside_dial :
  forall cx cy r_outer lobes amplitude points,
    0 <= amplitude -> amplitude <= r_outer ->
    (forall p, In p (guilloche_points cx cy r_outer lobes amplitude points) ->
               dist2 cx cy p <= r_outer * r_outer) /\
    hd (0, 0) (guilloche_points cx cy r_outer lobes amplitude points) = (cx, cy - r_outer).
Proof.
  intros cx cy r_outer lobes amplitude points Ha Hr. split.
  - intros p Hin. now apply (guilloche_points_within cx cy r_outer lobes amplitude points).
  - rewrite guilloche_points_first.
    unfold guilloche_angle. rewrite guilloche_t_start, polar_of_degrees.
    unfold guilloche_radius. rewrite guilloche_t_start, Rmult_0_r, sin_0, cos_0.
    replace 0.0 with 0 by lra.
    rewrite (Rmax_right 0 (r_outer - amplitude)) by lra.
    f_equal; ring.
Qed.

Lemma guilloche_inside_dial_witness :
  0 <= 3 /\ 3 <= 10 /\
  (forall p, In p (guilloche_points 0 0 10 12 3 1200) -> dist2 0 0 p <= 10 * 10) /\
  hd (0, 0) (guilloche_points 0 0 10 12 3 1200) = (0, 0 - 10).
Proof.
  split; [lra |]. split; [lra |].
  apply (guilloche_inside_dial 0 0 10 12 3 1200); lra.
Defined.

Lemma guilloche_t_mirror (points i : Z) :
  (0 < points)%Z -> guilloche_t points (points - i) = 2 * PI - guilloche_t points i.
Proof.
  intros Hp. unfold guilloche_t. rewrite minus_IZR.
  assert (IZR points <> 0) by (apply not_0_IZR; lia).
  replace 2.0 with 2 by lra. field. assumption.
Qed.

Lemma cos_mirror (l : Z) (t : R) :
  (0 <= l)%Z -> cos (IZR l * (2 * PI - t)) = cos (IZR l * t).
Proof.
  intros Hl. rewrite <- (Z2Nat.id l Hl), <- INR_IZR_INZ.
  replace (INR (Z.to_nat l) * (2 * PI - t))
    with (- (INR (Z.to_nat l) * t) + 2 * INR (Z.to_nat l) * PI) by ring.
  now rewrite cos_period, cos_neg.
Qed.

(** X6.  The rosette is symmetric about the vertical line through the
    centre: walking the polyline backwards gives its mirror image, sample
    [P - i] being the mirror image of sample [i], with [P] the clamped
    point count. *)
Theorem guilloche_mirror_symmetry :
  forall cx cy r_outer lobes amplitude points (i : nat),
    let P := Z.max 200 points in
    let pts := guilloche_points cx cy r_outer lobes amplitude points in
    (Z.of_nat i <= P)%Z ->
    exists p q,
      nth_error pts i = Some p /\
      nth_error pts (Z.to_nat P - i) = Some q /\
      q = mirror_x cx p.
Proof.
  intros cx cy r_outer lobes amplitude points i P pts Hi.
  assert (HP : (0 < P)%Z) by (unfold P; lia).
  unfold pts, guilloche_points. fold P.
  rewrite !nth_error_map, !nth_error_py_range by lia. cbn [option_map].
  eexists. eexists. split; [reflexivity |]. split; [reflexivity |].
  replace (0 + Z.of_nat (Z.to_nat P - i))%Z with (P - (0 + Z.of_nat i))%Z by lia.
  set (j := (0 + Z.of_nat i)%Z).
  unfold guilloche_angle. rewrite !polar_of_degrees.
  unfold guilloche_radius. rewrite guilloche_t_mirror by assumption.
  rewrite cos_mirror by lia.
  unfold mirror_x. cbn [fst snd].
  replace (2 * PI - guilloche_t P j) with (- guilloche_t P j + 2 * INR 1 * PI)
    by (simpl; ring).
  rewrite sin_period, cos_period, sin_neg, cos_neg.
  f_equal; ring.
Qed.

Lemma guilloche_mirror_symmetry_witness :
  (Z.of_nat 50 <= Z.max 200 200)%Z /\
  exists p q,
    nth_error (guilloche_points 0 0 10 12 3 200) 50 = Some p /\
    nth_error (guilloche_points 0 0 10 12 3 200) (Z.to_nat (Z.max 200 200) - 50) = Some q /\
    q = mirror_x 0 p.
Proof.
  split; [vm_compute; discriminate |].
  apply (guilloche_mirror_symmetry 0 0 10 12 3 200 50). vm_compute. discriminate.
Defined.

(** ** Concentric rings, continued *)

(** X7.  For a positive spacing the concentric generator returns, and the
    number of circles is [floor((r_outer + 1e-9 - r0) / spacing) + 1] when
    the start radius [r0 = max(0, r_inner)] is within [r_outer + 1e-9].  When
    the start radius is beyond that bound no circle is drawn, for any
    spacing. *)
Theorem concentric_ring_number :
  forall cx cy r_outer r_inner spacing w c op,
    let r0 := Rmax 0 r_inner in
    (0 < spacing -> r0 <= r_outer + 1e-9 ->
     exists rings,
       (forall fuel,
          (Z.to_nat (Zfloor ((r_outer + 1e-9 - r0) / spacing)) + 1 < fuel)%nat ->
          pattern_concentric fuel cx cy r_outer r_inner spacing w c op = Returned rings) /\
       List.length rings
       = (Z.to_nat (Zfloor ((r_outer + 1e-9 - r0) / spacing)) + 1)%nat) /\
    (~ r0 <= r_outer + 1e-9 ->
     forall fuel, (0 < fuel)%nat ->
       pattern_concentric fuel cx cy r_outer r_inner spacing w c op = Returned []).
Proof.
  intros cx cy r_outer r_inner spacing w c op r0. split.
  - intros Hs Hr.
    set (x := (r_outer + 1e-9 - r0) / spacing).
    assert (Hx : 0 <= x) by (apply div_nonneg; lra).
    assert (Hrx : r_outer + 1e-9 - r0 = x * spacing) by (unfold x; field; lra).
    pose proof (Zfloor_bound x) as [Hlo Hhi].
    assert (Hz : (0 <= Zfloor x)%Z) by (apply (Zfloor_lub 0); simpl; lra).
    set (n := (Z.to_nat (Zfloor x) + 1)%nat).
    assert (Hn : INR n = IZR (Zfloor x) + 1).
    { unfold n. rewrite plus_INR, INR_IZR_INZ, Z2Nat.id by assumption. simpl. ring. }
    exists (circles_at cx cy w c op (map (fun k => r0 + INR k * spacing) (seq 0 n))).
    split.
    + intros fuel Hf. apply pattern_concentric_radii.
      unfold concentric_radii. replace 0.0 with 0 by lra. fold r0.
      apply concentric_loop_exact; [| | exact Hf].
      * intros k Hk.
        assert (Hkz : (Z.of_nat k <= Zfloor x)%Z) by lia.
        apply IZR_le in Hkz. rewrite <- INR_IZR_INZ in Hkz.
        assert (INR k * spacing <= x * spacing) by (apply Rmult_le_compat_r; lra).
        lra.
      * rewrite Hn.
        assert (x * spacing < (IZR (Zfloor x) + 1) * spacing)
          by (apply Rmult_lt_compat_r; lra).
        lra.
    + unfold circles_at. now rewrite !length_map, length_seq.
  - intros Hout fuel Hf. destruct fuel as [| fuel]; [lia |].
    rewrite (pattern_concentric_radii _ _ _ _ _ _ _ _ _ []); [reflexivity |].
    unfold concentric_radii. replace 0.0 with 0 by lra.
    now apply concentric_loop_exit.
Qed.

Lemma concentric_ring_number_witness :
  0 < 0.6 /\ Rmax 0 0 <= 14 + 1e-9 /\
  exists rings,
    (forall fuel,
       (Z.to_nat (Zfloor ((14 + 1e-9 - Rmax 0 0) / 0.6)) + 1 < fuel)%nat ->
       pattern_concentric fuel 0 0 14 0 0.6 1 "#000000" 1 = Returned rings) /\
    List.length rings = (Z.to_nat (Zfloor ((14 + 1e-9 - Rmax 0 0) / 0.6)) + 1)%nat.
Proof.
  assert (H0 : Rmax 0 0 <= 14 + 1e-9).
  { unfold Rmax. destruct (Rle_dec 0 0); lra. }
  split; [lra |]. split; [exact H0 |].
  apply (proj1 (concentric_ring_number 0 0 14 0 0.6 1 "#000000" 1)); [lra | exact H0].
Defined.

(** ** Crosshatch, continued *)

(** X8.  For a positive spacing the hatch leaves no gap across the dial:
    every perpendicular position between [-r_outer] and [r_outer] has a line
    at or below it less than one spacing away. *)
Theorem crosshatch_covers_dial :
  forall r_outer spacing y,
    0 < spacing -> 0 <= r_outer -> - r_outer <= y <= r_outer ->
    exists d, In d (hatch_offsets r_outer spacing) /\ d <= y < d + spacing.
Proof.
  intros r_outer spacing y Hs Hr Hy.
  set (t := y / spacing).
  assert (Hyt : y = t * spacing) by (unfold t; field; lra).
  set (u := r_outer * 2.2 / spacing).
  assert (Hru : r_outer * 2.2 = u * spacing) by (unfold u; field; lra).
  assert (Hu0 : 0 <= u) by (apply div_nonneg; lra).
  pose proof (Zfloor_bound t) as [Htlo Hthi].
  pose proof (Zfloor_bound u) as [Hulo Huhi].
  assert (Hq0 : (0 <= Zfloor u)%Z) by (apply (Zfloor_lub 0); simpl; lra).
  assert (Htu : -(u / 2) <= t <= u / 2).
  { split.
    - apply Rmult_le_reg_r with spacing; [assumption |]. nra.
    - apply Rmult_le_reg_r with spacing; [assumption |]. nra. }
  assert (Hhi : (2 * Zfloor t < Zfloor u + 1)%Z).
  { apply lt_IZR. rewrite mult_IZR, plus_IZR. simpl. lra. }
  assert (Hlo : (- Zfloor u - 1 < 2 * Zfloor t + 2)%Z).
  { apply lt_IZR. rewrite plus_IZR, mult_IZR, minus_IZR, opp_IZR. simpl. lra. }
  exists (IZR (Zfloor t) * spacing). split.
  - apply in_hatch_offsets. exists (Zfloor t). split; [| reflexivity].
    rewrite hatch_count_floor by assumption. fold u.
    unfold hatch_start, hatch_end. Z.div_mod_to_equations. lia.
  - rewrite Hyt. split.
    + apply Rmult_le_compat_r; lra.
    + replace (IZR (Zfloor t) * spacing + spacing) with ((IZR (Zfloor t) + 1) * spacing)
        by ring.
      apply Rmult_lt_compat_r; lra.
Qed.

Lemma crosshatch_covers_dial_witness :
  0 < 0.7 /\ 0 <= 14 /\ - 14 <= 13.9 <= 14 /\
  exists d, In d (hatch_offsets 14 0.7) /\ d <= 13.9 < d + 0.7.
Proof.
  split; [lra |]. split; [lra |]. split; [lra |].
  apply (crosshatch_covers_dial 14 0.7 13.9); lra.
Defined.

Lemma in_add_set (cx cy r_outer spacing theta_deg w : R) (c : string) (op : R)
    (shape : node) :
  In shape (add_set cx cy r_outer spacing theta_deg w c op) ->
  exists off,
    In off (hatch_offsets r_outer spacing) /\
    shape = PathN [(cx + off * - sin (radians theta_deg)
                    - r_outer * 2.2 / 2.0 * cos (radians theta_deg),
                    cy + off * cos (radians theta_deg)
                    - r_outer * 2.2 / 2.0 * sin (radians theta_deg));
                   (cx + off * - sin (radians theta_deg)
                    + r_outer * 2.2 / 2.0 * cos (radians theta_deg),
                    cy + off * cos (radians theta_deg)
                    + r_outer * 2.2 / 2.0 * sin (radians theta_deg))]
                  (line_style w c op).
Proof.
  unfold add_set. intros Hin. apply in_map_iff in Hin.
  destruct Hin as [off [<- Hoff]]. now exists off.
Qed.

(** X9.  Every hatch line reaches the dial's edge or beyond on both sides:
    a line at perpendicular offset [off] has its two ends at squared
    distance [off^2 + (1.1 r_outer)^2] from the centre, which is at least
    [r_outer^2]; only the clip circle cuts the lines to the dial. *)
Theorem crosshatch_lines_span_dial :
  forall cx cy r_outer spacing theta_deg w c op shape,
    In shape (add_set cx cy r_outer spacing theta_deg w c op) ->
    exists off p q,
      In off (hatch_offsets r_outer spacing) /\
      shape = PathN [p; q] (line_style w c op) /\
      dist2 cx cy p = off * off + (1.1 * r_outer) * (1.1 * r_outer) /\
      dist2 cx cy q = off * off + (1.1 * r_outer) * (1.1 * r_outer) /\
      r_outer * r_outer <= dist2 cx cy p /\
      r_outer * r_outer <= dist2 cx cy q.
Proof.
  intros cx cy r_outer spacing theta_deg w c op shape Hin.
  apply in_add_set in Hin. destruct Hin as [off [Hoff ->]].
  pose proof (sin2_cos2_mult (radians theta_deg)) as Hsc.
  set (sn := sin (radians theta_deg)) in *. set (cs := cos (radians theta_deg)) in *.
  assert (Hp : dist2 cx cy (cx + off * - sn - r_outer * 2.2 / 2.0 * cs,
                            cy + off * cs - r_outer * 2.2 / 2.0 * sn)
               = off * off + (1.1 * r_outer) * (1.1 * r_outer)).
  { unfold dist2. cbn [fst snd].
    replace ((cx + off * - sn - r_outer * 2.2 / 2.0 * cs - cx)
             * (cx + off * - sn - r_outer * 2.2 / 2.0 * cs - cx)
             + (cy + off * cs - r_outer * 2.2 / 2.0 * sn - cy)
               * (cy + off * cs - r_outer * 2.2 / 2.0 * sn - cy))
      with ((off * off + (1.1 * r_outer) * (1.1 * r_outer)) * (sn * sn + cs * cs))
      by (replace 2.0 with 2 by lra; replace 2.2 with (22 / 10) by lra;
          replace 1.1 with (11 / 10) by lra; field).
    rewrite Hsc. ring. }
  assert (Hq : dist2 cx cy (cx + off * - sn + r_outer * 2.2 / 2.0 * cs,
                            cy + off * cs + r_outer * 2.2 / 2.0 * sn)
               = off * off + (1.1 * r_outer) * (1.1 * r_outer)).
  { unfold dist2. cbn [fst snd].
    replace ((cx + off * - sn + r_outer * 2.2 / 2.0 * cs - cx)
             * (cx + off * - sn + r_outer * 2.2 / 2.0 * cs - cx)
             + (cy + off * cs + r_outer * 2.2 / 2.0 * sn - cy)
               * (cy + off * cs + r_outer * 2.2 / 2.0 * sn - cy))
      with ((off * off + (1.1 * r_outer) * (1.1 * r_outer)) * (sn * sn + cs * cs))
      by (replace 2.0 with 2 by lra; replace 2.2 with (22 / 10) by lra;
          replace 1.1 with (11 / 10) by lra; field).
    rewrite Hsc. ring. }
  eexists off, _, _. split; [exact Hoff |]. split; [reflexivity |].
  split; [exact Hp |]. split; [exact Hq |].
  rewrite Hp, Hq. split; nra.
Qed.

(** X10.  With [double] the second family is perpendicular to the first:
    any line drawn for [angle + 90] is at a right angle to any line drawn
    for [angle]. *)
Theorem crosshatch_families_perpendicular :
  forall cx cy r_outer spacing theta_deg w c op s1 s2,
    In s1 (add_set cx cy r_outer spacing theta_deg w c op) ->
    In s2 (add_set cx cy r_outer spacing (theta_deg + 90.0) w c op) ->
    exists p1 q1 p2 q2,
      s1 = PathN [p1; q1] (line_style w c op) /\
      s2 = PathN [p2; q2] (line_style w c op) /\
      dot (direction p1 q1) (direction p2 q2) = 0.
Proof.
  intros cx cy r_outer spacing theta_deg w c op s1 s2 H1 H2.
  apply in_add_set in H1. destruct H1 as [off1 [_ ->]].
  apply in_add_set in H2. destruct H2 as [off2 [_ ->]].
  do 4 eexists. split; [reflexivity |]. split; [reflexivity |].
  unfold dot, direction. cbn [fst snd].
  replace (radians (theta_deg + 90.0)) with (radians theta_deg + PI / 2)
    by (replace 90.0 with 90 by lra; unfold radians; field; apply PI_neq0).
  rewrite cos_plus, sin_plus, cos_PI2, sin_PI2.
  replace 2.0 with 2 by lra. replace 2.2 with (22 / 10) by lra. field.
Qed.

Lemma hatch_offset_example : In (-3) (hatch_offsets 1 1).
Proof.
  apply in_hatch_offsets. rewrite hatch_count_example.
  exists (-3)%Z. split; [vm_compute; split; [discriminate | reflexivity] | lra].
Qed.

Lemma add_set_example (theta : R) :
  exists shape, In shape (add_set 0 0 1 1 theta 1 "#000000" 1).
Proof.
  eexists. unfold add_set. apply in_map. exact hatch_offset_example.
Qed.

Lemma crosshatch_lines_span_dial_witness :
  exists shape off p q,
    In shape (add_set 0 0 1 1 35 1 "#000000" 1) /\
    In off (hatch_offsets 1 1) /\
    shape = PathN [p; q] (line_style 1 "#000000" 1) /\
    1 * 1 <= dist2 0 0 p /\ 1 * 1 <= dist2 0 0 q.
Proof.
  destruct (add_set_example 35) as [shape Hin].
  destruct (crosshatch_lines_span_dial 0 0 1 1 35 1 "#000000" 1 shape Hin)
    as [off [p [q [Hoff [Hs [_ [_ [Hp Hq]]]]]]]].
  exists shape, off, p, q. repeat split; assumption.
Defined.

Lemma crosshatch_families_perpendicular_witness :
  exists s1 s2 p1 q1 p2 q2,
    In s1 (add_set 0 0 1 1 35 1 "#000000" 1) /\
    In s2 (add_set 0 0 1 1 (35 + 90.0) 1 "#000000" 1) /\
    s1 = PathN [p1; q1] (line_style 1 "#000000" 1) /\
    s2 = PathN [p2; q2] (line_style 1 "#000000" 1) /\
    dot (direction p1 q1) (direction p2 q2) = 0.
Proof.
  destruct (add_set_example 35) as [s1 H1].
  destruct (add_set_example (35 + 90.0)) as [s2 H2].
  destruct (crosshatch_families_perpendicular 0 0 1 1 35 1 "#000000" 1 s1 s2 H1 H2)
    as [p1 [q1 [p2 [q2 [E1 [E2 Hd]]]]]].
  exists s1, s2, p1, q1, p2, q2. repeat split; assumption.
Defined.

(** X11.  A negative spacing raises nothing.  When it is small against the
    dial, [4 * |spacing| <= 2.2 * r_outer], the line count falls below zero,
    the index range is empty and the generator returns without drawing a
    single line, with or without [double]. *)
Theorem crosshatch_negative_spacing_draws_nothing :
  forall cx cy r_outer spacing angle_deg double w c op,
    spacing < 0 -> 4 * - spacing <= r_outer * 2.2 ->
    hatch_offsets r_outer spacing = [] /\
    pattern_crosshatch cx cy r_outer spacing angle_deg double w c op = Returned [].
Proof.
  intros cx cy r_outer spacing angle_deg double w c op Hs Hr.
  assert (Hoffs : hatch_offsets r_outer spacing = []).
  { unfold hatch_offsets. cbv zeta.
    set (x := r_outer * 2.2 / spacing).
    assert (Hx : x <= -4).
    { unfold x. apply Rmult_le_reg_r with (- spacing); [lra |].
      replace (r_outer * 2.2 / spacing * - spacing) with (- (r_outer * 2.2))
        by (field; lra).
      lra. }
    assert (Hc : (hatch_count (r_outer * 2.2) spacing <= -1)%Z).
    { unfold hatch_count, py_int. fold x.
      destruct (Rle_dec 0 x) as [H0 | _]; [lra |].
      pose proof (Zceil_bound x) as [Hlo _].
      assert (Zceil x < -3)%Z; [| lia].
      apply lt_IZR. lra. }
    unfold py_range.
    replace (Z.to_nat (hatch_end (hatch_count (r_outer * 2.2) spacing)
                       - hatch_start (hatch_count (r_outer * 2.2) spacing))) with 0%nat;
      [reflexivity |].
    unfold hatch_start, hatch_end. Z.div_mod_to_equations. lia. }
  split; [exact Hoffs |].
  unfold pattern_crosshatch.
  destruct (Req_dec_T spacing 0) as [E | _]; [lra |].
  unfold add_set. rewrite Hoffs. now destruct double.
Qed.

Lemma crosshatch_negative_spacing_draws_nothing_witness :
  -1 < 0 /\ 4 * - -1 <= 10 * 2.2 /\
  hatch_offsets 10 (-1) = [] /\
  pattern_crosshatch 0 0 10 (-1) 35 true 1 "#000000" 1 = Returned [].
Proof.
  split; [lra |]. split; [lra |].
  apply (crosshatch_negative_spacing_draws_nothing 0 0 10 (-1) 35 true 1 "#000000" 1); lra.
Defined.

(** ** The document that [effect] leaves *)

Section EffectShape.

Context {G : Type} {RS : RandomSource G}.

Variables (o : options) (svg : svg_doc) (fuel : nat) (hex : string).

(** What a run that returns has built. *)
Lemma effect_returned (d : svg_doc) :
  effect o svg fuel hex = Returned d ->
  exists kids,
    pattern_children o svg fuel (group_id o ++ "-pattern")
      (fst (doc_center svg)) (snd (doc_center svg))
      (outer_radius o svg) (inner_radius o svg)
      (mm_to_uu svg (stroke_mm o)) (stroke_opacity_opt o)
    = Returned kids /\
    doc_center d = doc_center svg /\
    doc_unittouu d = doc_unittouu svg /\
    doc_defs d
    = (if clip_to_circle o
       then Some (get (doc_defs svg) []
                  ++ [mkClip (group_id o ++ "-clip-" ++ hex)
                             (fst (doc_center svg)) (snd (doc_center svg))
                             (outer_radius o svg)])%list
       else doc_defs svg) /\
    doc_children d
    = (doc_children svg
       ++ [GroupN (group_id o) (group_id o) None None
             (GroupN (group_id o ++ "-pattern") "pattern" None
                     (if clip_to_circle o
                      then Some ("url(#" ++ (group_id o ++ "-clip-" ++ hex) ++ ")")%string
                      else None)
                     kids
              :: (if draw_outline o
                  then [CircleN (fst (doc_center svg)) (snd (doc_center svg))
                                (outer_radius o svg)
                                (outline_style (mm_to_uu svg (outline_stroke_mm o)))]
                  else []))])%list.
Proof.
  unfold effect, outer_radius, inner_radius, group_id.
  destruct (doc_center svg) as [cx cy] eqn:Ec. cbn [fst snd].
  set (pc := pattern_children _ _ _ _ _ _ _ _ _ _).
  destruct pc as [kids | e |] eqn:Epc; cbn [outcome_map]; try discriminate.
  intros H. injection H as <-. exists kids. split; [reflexivity |].
  cbn [doc_center doc_unittouu doc_defs doc_children].
  repeat split; destruct (clip_to_circle o); reflexivity.
Qed.

End EffectShape.

(** X12.  A run that returns leaves the document's existing children in
    place and appends exactly one group after them, whose id and label are
    the group name ("dial-pattern" when the name is empty); the centre and
    the unit conversion of the document are untouched.  The group holds the
    pattern group, with id "<name>-pattern", and after it the outline
    circle when the outline is asked for, and nothing else. *)
Theorem effect_appends_one_group :
  forall (G : Type) (RS : RandomSource G) (o : options) (svg : svg_doc)
         (fuel : nat) (hex : string) (d : svg_doc),
    effect o svg fuel hex = Returned d ->
    doc_center d = doc_center svg /\
    doc_unittouu d = doc_unittouu svg /\
    doc_children d = (doc_children svg ++ [added_group d])%list /\
    group_label (added_group d) = Some (group_id o, group_id o) /\
    exists pattern_g,
      group_label pattern_g = Some ((group_id o ++ "-pattern")%string, "pattern"%string) /\
      group_children (added_group d)
      = pattern_g
        :: (if draw_outline o
            then [CircleN (fst (doc_center svg)) (snd (doc_center svg))
                          (outer_radius o svg)
                          (outline_style (mm_to_uu svg (outline_stroke_mm o)))]
            else []).
Proof.
  intros G RS o svg fuel hex d H.
  destruct (effect_returned o svg fuel hex d H) as [kids [_ [Hc [Hu [_ Hk]]]]].
  split; [exact Hc |]. split; [exact Hu |].
  unfold added_group. rewrite Hk, last_last.
  split; [reflexivity |]. split; [reflexivity |].
  eexists. split; [| reflexivity]. reflexivity.
Qed.

Lemma default_run_returns :
  exists d, effect (RS := lcg_source) default_options mm_document 1 "3f9a1c" = Returned d.
Proof. eexists. reflexivity. Qed.

Lemma effect_appends_one_group_witness :
  exists d,
    effect (RS := lcg_source) default_options mm_document 1 "3f9a1c" = Returned d /\
    doc_children d = (doc_children mm_document ++ [added_group d])%list /\
    group_label (added_group d)
    = Some (group_id default_options, group_id default_options).
Proof.
  destruct default_run_returns as [d Hd]. exists d. split; [exact Hd |].
  destruct (effect_appends_one_group Z lcg_source default_options mm_document 1
              "3f9a1c" d Hd) as [_ [_ [Hk [Hl _]]]].
  split; assumption.
Defined.

(** X13.  With clipping on, a run that returns adds exactly one clip path
    at the end of [defs] (creating [defs] when the document has none): a
    circle with the document's centre and the outer radius, and the pattern
    group's [clip-path] attribute is "url(#id)" for the id of that very clip
    path.  With clipping off [defs] is left as it was and the pattern group
    carries no [clip-path]. *)
Theorem clip_reference_resolves :
  forall (G : Type) (RS : RandomSource G) (o : options) (svg : svg_doc)
         (fuel : nat) (hex : string) (d : svg_doc),
    effect o svg fuel hex = Returned d ->
    exists pattern_g rest,
      group_children (added_group d) = pattern_g :: rest /\
      (clip_to_circle o = true ->
       exists c,
         doc_defs d = Some (get (doc_defs svg) [] ++ [c])%list /\
         clip_cx c = fst (doc_center svg) /\
         clip_cy c = snd (doc_center svg) /\
         clip_r c = outer_radius o svg /\
         clip_id c = (group_id o ++ "-clip-" ++ hex)%string /\
         group_clip pattern_g = Some ("url(#" ++ clip_id c ++ ")")%string) /\
      (clip_to_circle o = false ->
       doc_defs d = doc_defs svg /\ group_clip pattern_g = None).
Proof.
  intros G RS o svg fuel hex d H.
  destruct (effect_returned o svg fuel hex d H) as [kids [_ [_ [_ [Hd Hk]]]]].
  unfold added_group. rewrite Hk, last_last. cbn [group_children].
  eexists. eexists. split; [reflexivity |]. split; intros Hclip; rewrite Hclip in *.
  - eexists. split; [exact Hd |]. cbn. repeat split; reflexivity.
  - split; [exact Hd | reflexivity].
Qed.

Lemma clip_reference_resolves_witness :
  clip_to_circle default_options = true /\
  exists d pattern_g rest c,
    effect (RS := lcg_source) default_options mm_document 1 "3f9a1c" = Returned d /\
    group_children (added_group d) = pattern_g :: rest /\
    doc_defs d = Some (get (doc_defs mm_document) [] ++ [c])%list /\
    group_clip pattern_g = Some ("url(#" ++ clip_id c ++ ")")%string.
Proof.
  split; [reflexivity |].
  destruct default_run_returns as [d Hd].
  destruct (clip_reference_resolves Z lcg_source default_options mm_document 1
              "3f9a1c" d Hd) as [pattern_g [rest [Hk [Hon _]]]].
  destruct (Hon eq_refl) as [c [Hdefs [_ [_ [_ [_ Href]]]]]].
  exists d, pattern_g, rest, c. repeat split; assumption.
Defined.

(** X14.  Stroke compensation keeps the dial at its nominal size: when the
    unit conversion is linear (as the host's is, and the fallback of
    96/25.4 units per millimetre), the outer radius plus half the outline's
    stroke width is half the dial diameter in user units.  Without
    compensation the outer radius itself is half the diameter. *)
Theorem outline_compensation :
  forall (o : options) (svg : svg_doc) (k : R),
    (forall mm, mm_to_uu svg mm = k * mm) ->
    (outline_compensate_stroke o = true ->
     outer_radius o svg + mm_to_uu svg (outline_stroke_mm o) / 2
     = mm_to_uu svg (dial_diameter_mm o) / 2) /\
    (outline_compensate_stroke o = false ->
     outer_radius o svg = mm_to_uu svg (dial_diameter_mm o) / 2).
Proof.
  intros o svg k Hlin. unfold outer_radius.
  split; intros Hc; rewrite Hc, !Hlin; replace 2.0 with 2 by lra;
    replace 0.0 with 0 by lra; field.
Qed.

Lemma outline_compensation_witness :
  (forall mm, mm_to_uu mm_document mm = 1 * mm) /\
  outline_compensate_stroke default_options = true /\
  outer_radius default_options mm_document
  + mm_to_uu mm_document (outline_stroke_mm default_options) / 2
  = mm_to_uu mm_document (dial_diameter_mm default_options) / 2.
Proof.
  assert (Hlin : forall mm, mm_to_uu mm_document mm = 1 * mm).
  { intros mm. cbn. ring. }
  split; [exact Hlin |]. split; [reflexivity |].
  apply (proj1 (outline_compensation default_options mm_document 1 Hlin)). reflexivity.
Defined.

(** ** Styles and layers *)

Lemma styled_leaf (c : string) (sw op : R) (s : node) :
  styled c sw op s -> leaves s = [s].
Proof. intros [st [Hs _]]. destruct s; [reflexivity | reflexivity | discriminate]. Qed.

Lemma styled_leaves (c : string) (sw op : R) (shapes : list node) :
  Forall (styled c sw op) shapes -> flat_map leaves shapes = shapes.
Proof.
  induction 1 as [| s rest Hs _ IH]; [reflexivity |].
  cbn [flat_map]. rewrite (styled_leaf _ _ _ _ Hs), IH. reflexivity.
Qed.

Lemma styled_map {A : Type} (f : A -> node) (c : string) (sw op : R) (l : list A) :
  (forall a, styled c sw op (f a)) -> Forall (styled c sw op) (map f l).
Proof. intros Hf. apply Forall_forall. intros s Hin. apply in_map_iff in Hin.
  destruct Hin as [a [<- _]]. apply Hf. Qed.

(** Whatever [_draw_one] draws is a flat list of circles and paths with no
    fill and the stroke it was handed. *)
Lemma draw_one_styled (o : options) (svg : svg_doc) (fuel : nat)
    (cx cy r_outer r_inner : R) (k : pattern_kind) (sw : R) (c : string) (op : R)
    (ov : overrides) (shapes : list node) :
  draw_one o svg fuel cx cy r_outer r_inner k sw c op ov = Returned shapes ->
  Forall (styled c sw op) shapes.
Proof.
  unfold draw_one. destruct k.
  - intros H. injection H as <-. unfold pattern_guilloche.
    constructor; [| constructor]. eexists. repeat split.
  - unfold pattern_concentric.
    destruct (concentric_radii _ _ _ _) as [rs [|]]; [| discriminate].
    intros H. injection H as <-. unfold circles_at.
    apply styled_map. intros r. eexists. repeat split.
  - intros H. injection H as <-. unfold pattern_sunburst.
    apply styled_map. intros i. eexists. repeat split.
  - unfold pattern_crosshatch.
    destruct (Req_dec_T _ 0); [discriminate |].
    assert (Hset : forall th,
               Forall (styled c sw op)
                      (add_set cx cy r_outer
                         (get (ov_hatch_spacing ov) (mm_to_uu svg (hatch_spacing_mm o)))
                         th sw c op)).
    { intros th. unfold add_set. apply styled_map. intros off. eexists. repeat split. }
    destruct (get (ov_hatch_double ov) (hatch_double o)); intros H; injection H as <-.
    + apply Forall_app. split; apply Hset.
    + apply Hset.
Qed.

Lemma Forall2_seq_nth {A : Type} (P : nat -> A -> Prop) (l : list A) :
  forall (a n : nat),
    Forall2 P (seq a n) l ->
    List.length l = n /\
    forall i x, nth_error l i = Some x -> P (a + i)%nat x.
Proof.
  induction l as [| y l IH]; intros a n H.
  - inversion H as [E |]. destruct n; [| discriminate]. split; [reflexivity |].
    intros [| i] x Hx; discriminate.
  - destruct n as [| n]; [inversion H |]. cbn [seq] in H.
    inversion H as [| ? ? ? ? Hy Hrest]; subst.
    destruct (IH _ _ Hrest) as [Hlen Hnth]. split; [cbn; now rewrite Hlen |].
    intros [| i] x Hx.
    + injection Hx as <-. now rewrite Nat.add_0_r.
    + cbn in Hx. replace (a + S i)%nat with (S a + i)%nat by lia. now apply Hnth.
Qed.

Section Layers.

Context {G : Type} {RS : RandomSource G}.

Variables (o : options) (svg : svg_doc).

(** A layer step that returns has made the group of its index around the
    shapes [_draw_one] drew with this layer's stroke width and opacity. *)
Lemma layer_step_made (fuel : nat) (plan : list plan_entry) (pid : string)
    (cx cy r_outer r_inner bs bo : R) (i : nat) (g g' : G) (lg : node) :
  layer_step o svg fuel plan pid cx cy r_outer r_inner bs bo i g = Returned (lg, g') ->
  exists rot shapes ov,
    lg = make_layer pid cx cy i rot shapes /\
    draw_one o svg fuel cx cy r_outer r_inner (fst (plan_at plan i))
             (layer_stroke o bs i) (stroke_color o) (layer_opacity o bo i) ov
    = Returned shapes.
Proof.
  unfold layer_step. destruct (plan_at plan i) as [ptype ofn]. cbn [fst].
  unfold bind, uniform, lift, ret. intros H.
  destruct (ofn i g) as [[ov0 g1] | e |]; try discriminate.
  destruct (vary o svg i ptype ov0 g1) as [[ov g2] | e |]; try discriminate.
  destruct (next_uniform g2 (- rotate_jitter_deg o) (rotate_jitter_deg o)) as [rot g3].
  destruct (draw_one o svg fuel cx cy r_outer r_inner ptype (layer_stroke o bs i)
                     (stroke_color o) (layer_opacity o bo i) ov) as [shapes | e |] eqn:E;
    try discriminate.
  cbn [outcome_map] in H. injection H as <- _.
  exists rot, shapes, ov. split; [reflexivity | exact E].
Qed.

(** In auto-complex mode the children of the pattern group are the layer
    groups, one per index below the resolved layer count, in index order. *)
Lemma pattern_children_layers (fuel : nat) (pid : string)
    (cx cy r_outer r_inner bs bo : R) (kids : list node) :
  auto_complex o = true ->
  pattern_children o svg fuel pid cx cy r_outer r_inner bs bo = Returned kids ->
  Forall2 (fun i lg =>
             exists rot shapes ov,
               lg = make_layer pid cx cy i rot shapes /\
               draw_one o svg fuel cx cy r_outer r_inner
                        (fst (plan_at (fst (resolve_plan o svg)) i))
                        (layer_stroke o bs i) (stroke_color o) (layer_opacity o bo i) ov
               = Returned shapes)
          (seq 0 (Z.to_nat (snd (resolve_plan o svg)))) kids.
Proof.
  intros Hauto. unfold pattern_children. rewrite Hauto. cbn [negb].
  destruct (resolve_plan o svg) as [plan nlayers]. cbn [fst snd].
  match goal with
  | |- context [run_layers ?step ?idxs ?g] =>
      destruct (run_layers step idxs g) as [[lgs g'] | e |] eqn:Erun
  end; cbn [outcome_map]; try discriminate.
  intros H. injection H as <-.
  apply run_layers_steps in Erun.
  eapply Forall2_impl; [| exact Erun].
  intros i lg [g1 [g2 Hstep]]. eapply layer_step_made. exact Hstep.
Qed.

(** Every shape below the pattern group has no fill and the chosen stroke
    colour. *)
Lemma pattern_children_styled (fuel : nat) (pid : string)
    (cx cy r_outer r_inner bs bo : R) (kids : list node) (s : node) :
  pattern_children o svg fuel pid cx cy r_outer r_inner bs bo = Returned kids ->
  In s (flat_map leaves kids) ->
  exists sw op, styled (stroke_color o) sw op s.
Proof.
  destruct (auto_complex o) eqn:Hauto.
  - intros Hk Hin. apply (pattern_children_layers _ _ _ _ _ _ _ _ _ Hauto) in Hk.
    apply in_flat_map in Hin. destruct Hin as [lg [Hlg Hs]].
    apply In_nth_error in Hlg. destruct Hlg as [i Hi].
    destruct (Forall2_seq_nth _ _ _ _ Hk) as [_ Hnth].
    destruct (Hnth i lg Hi) as [rot [shapes [ov [-> Hd]]]].
    apply draw_one_styled in Hd.
    unfold make_layer in Hs. cbn [leaves] in Hs.
    rewrite (styled_leaves _ _ _ _ Hd) in Hs.
    eexists. eexists. eapply Forall_forall; [exact Hd | exact Hs].
  - unfold pattern_children. rewrite Hauto. cbn [negb]. intros Hd Hin.
    apply draw_one_styled in Hd.
    rewrite (styled_leaves _ _ _ _ Hd) in Hin.
    eexists. eexists. eapply Forall_forall; [exact Hd | exact Hin].
Qed.

End Layers.

(** X15.  Whatever the options, every shape of the group a run adds is a
    circle or a path with [fill] "none": the generator only strokes.  The
    shapes of the pattern use the chosen stroke colour; the one other shape
    is the outline circle, stroked in "#000000". *)
Theorem shapes_are_stroked_only :
  forall (G : Type) (RS : RandomSource G) (o : options) (svg : svg_doc)
         (fuel : nat) (hex : string) (d : svg_doc) (s : node),
    effect o svg fuel hex = Returned d ->
    In s (leaves (added_group d)) ->
    exists st,
      shape_style s = Some st /\
      fill st = "none"%string /\
      (stroke st = stroke_color o \/
       (draw_outline o = true /\
        s = CircleN (fst (doc_center svg)) (snd (doc_center svg)) (outer_radius o svg)
                    (outline_style (mm_to_uu svg (outline_stroke_mm o))) /\
        stroke st = "#000000"%string)).
Proof.
  intros G RS o svg fuel hex d s H Hin.
  destruct (effect_returned o svg fuel hex d H) as [kids [Hpc [_ [_ [_ Hk]]]]].
  unfold added_group in Hin. rewrite Hk, last_last in Hin.
  cbn [leaves flat_map] in Hin.
  apply in_app_or in Hin. destruct Hin as [Hin | Hin].
  - destruct (pattern_children_styled o svg _ _ _ _ _ _ _ _ kids s Hpc Hin)
      as [sw [op [st [Hs [Hf [Hc _]]]]]].
    exists st. split; [exact Hs |]. split; [exact Hf |]. now left.
  - destruct (draw_outline o); cbn [flat_map leaves app] in Hin;
      [| contradiction].
    destruct Hin as [<- | []].
    eexists. split; [reflexivity |]. split; [reflexivity |].
    right. repeat split.
Qed.

Lemma shapes_are_stroked_only_witness :
  exists d s st,
    effect (RS := lcg_source) default_options mm_document 1 "3f9a1c" = Returned d /\
    In s (leaves (added_group d)) /\
    shape_style s = Some st /\ fill st = "none"%string.
Proof.
  destruct default_run_returns as [d Hd].
  assert (Hin : In (CircleN (fst (doc_center mm_document)) (snd (doc_center mm_document))
                            (outer_radius default_options mm_document)
                            (outline_style (mm_to_uu mm_document
                                              (outline_stroke_mm default_options))))
                   (leaves (added_group d))).
  { destruct (effect_returned default_options mm_document 1 "3f9a1c" d Hd)
      as [kids [_ [_ [_ [_ Hk]]]]].
    unfold added_group. rewrite Hk, last_last.
    cbn [leaves flat_map]. apply in_or_app. right.
    cbn. now left. }
  destruct (shapes_are_stroked_only Z lcg_source default_options mm_document 1 "3f9a1c"
              d _ Hd Hin) as [st [Hs [Hf _]]].
  eexists d, _, st. split; [exact Hd |]. split; [exact Hin |]. split; assumption.
Defined.

(** ** Rosette presets *)

Section Rosettes.

Context {G : Type} {RS : RandomSource G}.

Variables (o : options) (svg : svg_doc).

Hypothesis not_breguet : String.eqb (preset_name o) "breguet" = false.
Hypothesis not_modern : String.eqb (preset_name o) "modern" = false.

Lemma rosette_resolved :
  resolve_plan o svg
  = (repeat rosette_entry (Z.to_nat (Z.max 1 (layers o))), Z.max 1 (layers o)).
Proof.
  unfold resolve_plan, requested_layers. rewrite not_breguet, not_modern.
  now destruct (String.eqb (preset_name o) "pocketwatch").
Qed.

Lemma rosette_plan_at (n i : nat) :
  plan_at (G := G) (repeat rosette_entry n) i = rosette_entry.
Proof. unfold plan_at. apply nth_repeat. Qed.

(** A rosette layer returns when [randint] has a range to draw from. *)
Lemma rosette_layer_returns (fuel n : nat) (pid : string)
    (cx cy r_outer r_inner bs bo : R) :
  (0 <= lobe_jitter o)%Z ->
  forall i g, exists lg g',
    layer_step o svg fuel (repeat rosette_entry n) pid cx cy r_outer r_inner bs bo i g
    = Returned (lg, g').
Proof.
  intros Hj i g. unfold layer_step. rewrite rosette_plan_at. unfold rosette_entry.
  unfold bind at 1. unfold ret at 1.
  destruct (vary_guilloche_points o svg i no_overrides g eq_refl (or_introl Hj))
    as [ov [g1 [Hv _]]].
  unfold bind at 1. rewrite Hv.
  unfold bind, uniform, lift, draw_one, ret.
  destruct (next_uniform g1 (- rotate_jitter_deg o) (rotate_jitter_deg o)) as [rot g2].
  cbn [outcome_map]. eauto.
Qed.

(** With a negative [lobe_jitter] the first rosette layer already fails. *)
Lemma rosette_layer_raises (fuel n : nat) (pid : string)
    (cx cy r_outer r_inner bs bo : R) (i : nat) (g : G) :
  (lobe_jitter o < 0)%Z ->
  layer_step o svg fuel (repeat rosette_entry n) pid cx cy r_outer r_inner bs bo i g
  = Raised ValueError.
Proof.
  intros Hj. unfold layer_step. rewrite rosette_plan_at. unfold rosette_entry.
  unfold bind at 1. unfold ret at 1.
  unfold bind at 1. unfold vary. cbn [ov_lobes no_overrides].
  unfold bind at 1. unfold randint.
  replace (- lobe_jitter o <=? lobe_jitter o)%Z with false
    by (symmetry; apply Z.leb_gt; lia).
  reflexivity.
Qed.

Lemma rosette_effect_returns (fuel : nat) (hex : string) :
  auto_complex o = true ->
  (0 <= lobe_jitter o)%Z ->
  exists d,
    effect o svg fuel hex = Returned d /\
    List.length (layer_groups d) = Z.to_nat (Z.max 1 (layers o)).
Proof.
  intros Hauto Hj. unfold effect. destruct (doc_center svg) as [cx cy].
  unfold pattern_children. rewrite Hauto. cbn [negb]. rewrite rosette_resolved.
  match goal with
  | |- context [run_layers ?step ?idxs ?g] =>
      destruct (run_layers_returns step idxs
                  (rosette_layer_returns fuel _ _ cx cy _ _ _ _ Hj) g)
        as [lgs [g' Hrun]];
      rewrite Hrun; pose proof (run_layers_length step idxs g g' lgs Hrun) as Hlen
  end.
  cbn [outcome_map fst]. eexists. split; [reflexivity |].
  unfold layer_groups. cbn [doc_children]. rewrite last_last.
  rewrite Hlen. apply length_seq.
Qed.

Lemma rosette_effect_raises (fuel : nat) (hex : string) :
  auto_complex o = true ->
  (lobe_jitter o < 0)%Z ->
  effect o svg fuel hex = Raised ValueError.
Proof.
  intros Hauto Hj. unfold effect. destruct (doc_center svg) as [cx cy].
  unfold pattern_children. rewrite Hauto. cbn [negb]. rewrite rosette_resolved.
  destruct (Z.to_nat (Z.max 1 (layers o))) as [| m] eqn:E; [lia |].
  cbn [seq run_layers]. unfold bind at 1.
  rewrite rosette_layer_raises by assumption. reflexivity.
Qed.

End Rosettes.

(** X16.  With a preset that is neither "breguet" nor "modern" the
    auto-complex run stacks rosettes and cannot loop: for a [lobe_jitter]
    that is not negative it returns, whatever the fuel, with
    [max(1, layers)] layer groups; for a negative [lobe_jitter] it raises
    [ValueError] at the first layer, [randint] being handed an empty
    range. *)
Theorem rosette_presets_return_or_raise :
  forall (G : Type) (RS : RandomSource G) (o : options) (svg : svg_doc),
    auto_complex o = true ->
    String.eqb (preset_name o) "breguet" = false ->
    String.eqb (preset_name o) "modern" = false ->
    ((0 <= lobe_jitter o)%Z ->
     forall fuel hex, exists d,
       effect o svg fuel hex = Returned d /\
       List.length (layer_groups d) = Z.to_nat (Z.max 1 (layers o))) /\
    ((lobe_jitter o < 0)%Z ->
     forall fuel hex, effect o svg fuel hex = Raised ValueError).
Proof.
  intros G RS o svg Hauto Hb Hm. split.
  - intros Hj fuel hex. now apply rosette_effect_returns.
  - intros Hj fuel hex. now apply rosette_effect_raises.
Qed.

Lemma rosette_presets_return_or_raise_witness :
  auto_complex complex_options = true /\
  String.eqb (preset_name complex_options) "breguet" = false /\
  String.eqb (preset_name complex_options) "modern" = false /\
  (0 <= lobe_jitter complex_options)%Z /\
  exists d,
    effect (RS := lcg_source) complex_options mm_document 0 "3f9a1c" = Returned d /\
    List.length (layer_groups d) = Z.to_nat (Z.max 1 (layers complex_options)).
Proof.
  assert (Hj : (0 <= lobe_jitter complex_options)%Z) by (vm_compute; discriminate).
  split; [reflexivity |]. split; [reflexivity |]. split; [reflexivity |].
  split; [exact Hj |].
  apply (proj1 (rosette_presets_return_or_raise Z lcg_source complex_options mm_document
                  eq_refl eq_refl eq_refl) Hj 0%nat "3f9a1c"%string).
Defined.

(** X17.  In auto-complex mode the layer groups are the children of the
    pattern group in index order, as many as the resolved layer count: the
    group at position [i] has the label "layer-<i+1>" and the id
    "<name>-pattern-layer-<i+1>", so the last layer is the last child, drawn
    on top; no layer group is clipped on its own. *)
Theorem layers_in_index_order :
  forall (G : Type) (RS : RandomSource G) (o : options) (svg : svg_doc)
         (fuel : nat) (hex : string) (d : svg_doc),
    auto_complex o = true ->
    effect o svg fuel hex = Returned d ->
    List.length (layer_groups d) = Z.to_nat (snd (resolve_plan o svg)) /\
    forall i lg,
      nth_error (layer_groups d) i = Some lg ->
      group_label lg
      = Some (((group_id o ++ "-pattern") ++ "-layer-" ++ str_of_nat (i + 1))%string,
              ("layer-" ++ str_of_nat (i + 1))%string) /\
      group_clip lg = None.
Proof.
  intros G RS o svg fuel hex d Hauto H.
  destruct (effect_returned o svg fuel hex d H) as [kids [Hpc [_ [_ [_ Hk]]]]].
  unfold layer_groups. rewrite Hk, last_last.
  apply (pattern_children_layers o svg _ _ _ _ _ _ _ _ kids Hauto) in Hpc.
  destruct (Forall2_seq_nth _ _ _ _ Hpc) as [Hlen Hnth].
  split; [exact Hlen |].
  intros i lg Hi. destruct (Hnth i lg Hi) as [rot [shapes [ov [-> _]]]].
  cbn [Nat.add]. unfold make_layer. split; reflexivity.
Qed.

(** A rosette run on the sample document, and its first layer group. *)
Lemma complex_run_first_layer :
  exists d lg,
    effect (RS := lcg_source) complex_options mm_document 0 "3f9a1c" = Returned d /\
    nth_error (layer_groups d) 0 = Some lg.
Proof.
  destruct (rosette_effect_returns (RS := lcg_source) complex_options mm_document
              eq_refl eq_refl 0 "3f9a1c" eq_refl) as [d [Hd Hlen]];
    [vm_compute; discriminate |].
  exists d. destruct (layer_groups d) as [| lg rest]; [discriminate Hlen |].
  exists lg. split; [exact Hd | reflexivity].
Qed.

Lemma layers_in_index_order_witness :
  auto_complex complex_options = true /\
  exists d lg,
    effect (RS := lcg_source) complex_options mm_document 0 "3f9a1c" = Returned d /\
    nth_error (layer_groups d) 0 = Some lg /\
    List.length (layer_groups d)
    = Z.to_nat (snd (resolve_plan (RS := lcg_source) complex_options mm_document)) /\
    group_label lg
    = Some (((group_id complex_options ++ "-pattern") ++ "-layer-" ++ str_of_nat (0 + 1))%string,
            ("layer-" ++ str_of_nat (0 + 1))%string).
Proof.
  split; [reflexivity |].
  destruct complex_run_first_layer as [d [lg [Hd Hlg]]].
  destruct (layers_in_index_order Z lcg_source complex_options mm_document 0 "3f9a1c" d
              eq_refl Hd) as [Hlen Hnth].
  exists d, lg. split; [exact Hd |]. split; [exact Hlg |]. split; [exact Hlen |].
  exact (proj1 (Hnth 0%nat lg Hlg)).
Defined.

(** X18.  In auto-complex mode every shape of layer [i] is drawn with the
    stroke width [base_stroke * stroke_decay^i] and the stroke opacity
    [clamp(base_opacity * opacity_decay^i, 0.02, 1.0)], in the chosen stroke
    colour and without fill; the plan's overrides never change them. *)
Theorem layer_shapes_carry_decayed_style :
  forall (G : Type) (RS : RandomSource G) (o : options) (svg : svg_doc)
         (fuel : nat) (hex : string) (d : svg_doc),
    auto_complex o = true ->
    effect o svg fuel hex = Returned d ->
    forall i lg,
      nth_error (layer_groups d) i = Some lg ->
      Forall (styled (stroke_color o)
                     (layer_stroke o (mm_to_uu svg (stroke_mm o)) i)
                     (layer_opacity o (stroke_opacity_opt o) i))
             (group_children lg).
Proof.
  intros G RS o svg fuel hex d Hauto H i lg Hi.
  destruct (effect_returned o svg fuel hex d H) as [kids [Hpc [_ [_ [_ Hk]]]]].
  unfold layer_groups in Hi. rewrite Hk, last_last in Hi.
  apply (pattern_children_layers o svg _ _ _ _ _ _ _ _ kids Hauto) in Hpc.
  destruct (Forall2_seq_nth _ _ _ _ Hpc) as [_ Hnth].
  destruct (Hnth i lg Hi) as [rot [shapes [ov [-> Hd]]]].
  cbn [Nat.add] in Hd. unfold make_layer. cbn [group_children].
  eapply draw_one_styled. exact Hd.
Qed.

Lemma layer_shapes_carry_decayed_style_witness :
  auto_complex complex_options = true /\
  exists d lg,
    effect (RS := lcg_source) complex_options mm_document 0 "3f9a1c" = Returned d /\
    nth_error (layer_groups d) 0 = Some lg /\
    Forall (styled (stroke_color complex_options)
                   (layer_stroke complex_options
                      (mm_to_uu mm_document (stroke_mm complex_options)) 0)
                   (layer_opacity complex_options (stroke_opacity_opt complex_options) 0))
           (group_children lg).
Proof.
  split; [reflexivity |].
  destruct complex_run_first_layer as [d [lg [Hd Hlg]]].
  exists d, lg. split; [exact Hd |]. split; [exact Hlg |].
  exact (layer_shapes_carry_decayed_style Z lcg_source complex_options mm_document 0
           "3f9a1c" d eq_refl Hd 0%nat lg Hlg).
Defined.

(** ** Single-layer mode *)

(** X19.  With "Auto complex" off the run reads none of the auto-complex
    options and draws nothing at random: the outcome is the same for any
    preset, layer count, seed, jitters and decays and for any random
    source.  The shapes go straight into the pattern group, with the stroke
    width and the stroke opacity of the options as they are, the opacity
    not clamped. *)
Theorem single_layer_ignores_complex_options :
  forall (G1 G2 : Type) (RS1 : RandomSource G1) (RS2 : RandomSource G2)
         (o : options) (svg : svg_doc) (fuel : nat) (hex : string)
         (preset : string) (nlayers sd : Z) (rj od std : R) (lj : Z) (ad : R),
    auto_complex o = false ->
    effect (RS := RS1) (with_complex_fields preset nlayers sd rj od std lj ad o)
           svg fuel hex
    = effect (RS := RS2) o svg fuel hex /\
    forall d,
      effect (RS := RS2) o svg fuel hex = Returned d ->
      exists pattern_g rest,
        group_children (added_group d) = pattern_g :: rest /\
        Forall (styled (stroke_color o) (mm_to_uu svg (stroke_mm o)) (stroke_opacity_opt o))
               (group_children pattern_g).
Proof.
  intros G1 G2 RS1 RS2 o svg fuel hex preset nlayers sd rj od std lj ad Hauto. split.
  - destruct o. cbn in Hauto. subst.
    unfold effect, pattern_children, with_complex_fields. cbn. reflexivity.
  - intros d H.
    destruct (effect_returned o svg fuel hex d H) as [kids [Hpc [_ [_ [_ Hk]]]]].
    unfold added_group. rewrite Hk, last_last. cbn [group_children].
    eexists. eexists. split; [reflexivity |]. cbn [group_children].
    unfold pattern_children in Hpc. rewrite Hauto in Hpc. cbn [negb] in Hpc.
    eapply draw_one_styled. exact Hpc.
Qed.

Lemma single_layer_ignores_complex_options_witness :
  auto_complex default_options = false /\
  effect (RS := lcg_source)
         (with_complex_fields "breguet" 9 42 0 0.5 0.5 (-3) 2 default_options)
         mm_document 1 "3f9a1c"
  = effect (RS := lcg_source) default_options mm_document 1 "3f9a1c".
Proof.
  split; [reflexivity |].
  apply (single_layer_ignores_complex_options Z Z lcg_source lcg_source default_options
           mm_document 1 "3f9a1c" "breguet" 9 42 0 0.5 0.5 (-3) 2 eq_refl).
Defined.

(** X20.  A hatch spacing that converts to 0 user units makes the
    single-layer crosshatch run fail with [ZeroDivisionError], before any
    line is drawn; any other spacing, negative ones included, makes it
    return, whatever the fuel. *)
Theorem crosshatch_zero_spacing_raises :
  forall (G : Type) (RS : RandomSource G) (o : options) (svg : svg_doc)
         (fuel : nat) (hex : string),
    auto_complex o = false ->
    pattern_type o = Crosshatch ->
    (mm_to_uu svg (hatch_spacing_mm o) = 0 ->
     effect o svg fuel hex = Raised ZeroDivisionError) /\
    (mm_to_uu svg (hatch_spacing_mm o) <> 0 ->
     exists d, effect o svg fuel hex = Returned d).
Proof.
  intros G RS o svg fuel hex Hauto Hk.
  unfold effect. destruct (doc_center svg) as [cx cy].
  unfold pattern_children. rewrite Hauto, Hk. cbn [negb].
  unfold draw_one. cbn [get ov_hatch_spacing ov_hatch_angle ov_hatch_double no_overrides].
  unfold pattern_crosshatch.
  destruct (Req_dec_T (mm_to_uu svg (hatch_spacing_mm o)) 0) as [E | E]; split;
    intros H; try contradiction.
  - reflexivity.
  - destruct (hatch_double o); cbn [outcome_map]; eexists; reflexivity.
Qed.

Lemma crosshatch_zero_spacing_raises_witness :
  auto_complex (with_hatch Crosshatch 0 default_options) = false /\
  pattern_type (with_hatch Crosshatch 0 default_options) = Crosshatch /\
  mm_to_uu mm_document (hatch_spacing_mm (with_hatch Crosshatch 0 default_options)) = 0 /\
  effect (RS := lcg_source) (with_hatch Crosshatch 0 default_options) mm_document 1 "3f9a1c"
  = Raised ZeroDivisionError.
Proof.
  split; [reflexivity |]. split; [reflexivity |]. split; [reflexivity |].
  apply (proj1 (crosshatch_zero_spacing_raises Z lcg_source
                  (with_hatch Crosshatch 0 default_options) mm_document 1 "3f9a1c"
                  eq_refl eq_refl)).
  reflexivity.
Defined.

(** ** Preset names *)

Section PresetNames.

Context {G : Type} {RS : RandomSource G}.

(** The preset is read through two tests on its normalised name only. *)
Lemma effect_preset_class (o : options) (svg : svg_doc) (fuel : nat) (hex p q : string) :
  String.eqb (preset_name (with_preset p o)) "breguet"
  = String.eqb (preset_name (with_preset q o)) "breguet" ->
  String.eqb (preset_name (with_preset p o)) "modern"
  = String.eqb (preset_name (with_preset q o)) "modern" ->
  effect (with_preset p o) svg fuel hex = effect (with_preset q o) svg fuel hex.
Proof.
  destruct o. unfold with_preset, preset_name. options_fields. intros Hb Hm.
  unfold effect, pattern_children, resolve_plan, preset_name, requested_layers.
  options_fields. rewrite Hb, Hm.
  destruct (doc_center svg) as [cx cy].
  destruct auto_complex0; cbn [negb]; [| reflexivity].
  destruct (String.eqb (py_lower (py_strip (str_or q "rosette_stack"))) "breguet");
    [reflexivity |].
  destruct (String.eqb (py_lower (py_strip (str_or q "rosette_stack"))) "modern");
    [reflexivity |].
  destruct (String.eqb (py_lower (py_strip (str_or p "rosette_stack"))) "pocketwatch"),
           (String.eqb (py_lower (py_strip (str_or q "rosette_stack"))) "pocketwatch");
    reflexivity.
Qed.

End PresetNames.

(** X21.  The preset name counts only after stripping surrounding
    whitespace and lowering the case: two names that normalise alike give
    the same run.  A name that normalises to neither "breguet" nor "modern"
    (an unknown name, the empty name, "pocketwatch") runs exactly as
    "rosette_stack"; no preset name makes the generator fail. *)
Theorem preset_name_normalised :
  forall (G : Type) (RS : RandomSource G) (o : options) (svg : svg_doc)
         (fuel : nat) (hex p q : string),
    (py_lower (py_strip (str_or p "rosette_stack"))
     = py_lower (py_strip (str_or q "rosette_stack")) ->
     effect (with_preset p o) svg fuel hex = effect (with_preset q o) svg fuel hex) /\
    (String.eqb (py_lower (py_strip (str_or p "rosette_stack"))) "breguet" = false ->
     String.eqb (py_lower (py_strip (str_or p "rosette_stack"))) "modern" = false ->
     effect (with_preset p o) svg fuel hex
     = effect (with_preset "rosette_stack" o) svg fuel hex).
Proof.
  intros G RS o svg fuel hex p q. split.
  - intros H. apply effect_preset_class; unfold preset_name, with_preset;
      options_fields; now rewrite H.
  - intros Hb Hm. apply effect_preset_class; unfold preset_name, with_preset;
      options_fields; [rewrite Hb | rewrite Hm]; reflexivity.
Qed.

Lemma preset_name_normalised_witness :
  py_lower (py_strip (str_or "  BreGuet " "rosette_stack"))
  = py_lower (py_strip (str_or "breguet" "rosette_stack")) /\
  effect (RS := lcg_source) (with_preset "  BreGuet " complex_options) mm_document 40 "3f9a1c"
  = effect (RS := lcg_source) (with_preset "breguet" complex_options) mm_document 40 "3f9a1c" /\
  String.eqb (py_lower (py_strip (str_or "nonexistent" "rosette_stack"))) "breguet" = false /\
  String.eqb (py_lower (py_strip (str_or "nonexistent" "rosette_stack"))) "modern" = false /\
  effect (RS := lcg_source) (with_preset "nonexistent" complex_options) mm_document 40 "3f9a1c"
  = effect (RS := lcg_source) (with_preset "rosette_stack" complex_options) mm_document 40
           "3f9a1c".
Proof.
  destruct (preset_name_normalised Z lcg_source complex_options mm_document 40 "3f9a1c"
              "  BreGuet " "breguet") as [Hsame _].
  destruct (preset_name_normalised Z lcg_source complex_options mm_document 40 "3f9a1c"
              "nonexistent" "breguet") as [_ Hfall].
  split; [reflexivity |]. split; [exact (Hsame eq_refl) |].
  split; [reflexivity |]. split; [reflexivity |].
  exact (Hfall eq_refl eq_refl).
Defined.

(** ** Variation of the overrides *)

Section VaryProps.

Context {G : Type} {RS : RandomSource G}.

Variables (o : options) (svg : svg_doc).

(** The outcomes of [vary] on a guilloche layer, case by case. *)
Lemma vary_guilloche_cases (i : nat) (ov ov' : overrides) (g g' : G) :
  vary o svg i Guilloche ov g = Returned (ov', g') ->
  exists l,
    (ov_lobes ov = Some l /\ g' = g \/
     ov_lobes ov = None /\
     l = Z.max 2 (lobes o + fst (next_int g (- lobe_jitter o) (lobe_jitter o))) /\
     g' = snd (next_int g (- lobe_jitter o) (lobe_jitter o))) /\
    ov' = mkOverrides (ov_ring_spacing ov) (ov_rays ov) (Some l)
            (Some (match ov_amplitude ov with
                   | Some a => a
                   | None => mm_to_uu svg (amplitude_mm o) * amp_decay o ^ i
                   end))
            (Some (match ov_points ov with
                   | Some p => p
                   | None => layer_points o i
                   end))
            (ov_hatch_spacing ov) (ov_hatch_angle ov) (ov_hatch_double ov).
Proof.
  unfold vary. destruct ov as [rs ry lb am pt hs ha hd]. cbn [ov_lobes].
  destruct lb as [l |].
  - unfold bind, ret. cbn. intros H. exists l. split; [left; split; [reflexivity |] |].
    + destruct am, pt; cbn in H; now injection H.
    + destruct am, pt; cbn in H; now injection H.
  - unfold bind, ret, randint.
    destruct (- lobe_jitter o <=? lobe_jitter o)%Z; [| discriminate].
    destruct (next_int g (- lobe_jitter o) (lobe_jitter o)) as [j g1]. cbn.
    intros H. eexists. split; [right; split; [reflexivity |]; split; [reflexivity |] |].
    + destruct am, pt; cbn in H; now injection H.
    + destruct am, pt; cbn in H; now injection H.
Qed.

End VaryProps.

(** X22.  The variation step never changes what the plan has fixed: every
    key present in a plan entry's overrides keeps its value, the keys
    [ring_spacing], [rays], [hatch_spacing] and [hatch_double] are never
    written, and for a concentric or a sunburst layer the overrides come
    back as they were and nothing is drawn from the random source. *)
Theorem vary_keeps_fixed_values :
  forall (G : Type) (RS : RandomSource G) (o : options) (svg : svg_doc)
         (i : nat) (k : pattern_kind) (ov ov' : overrides) (g g' : G),
    vary o svg i k ov g = Returned (ov', g') ->
    ov_ring_spacing ov' = ov_ring_spacing ov /\
    ov_rays ov' = ov_rays ov /\
    ov_hatch_spacing ov' = ov_hatch_spacing ov /\
    ov_hatch_double ov' = ov_hatch_double ov /\
    (forall v, ov_lobes ov = Some v -> ov_lobes ov' = Some v) /\
    (forall v, ov_amplitude ov = Some v -> ov_amplitude ov' = Some v) /\
    (forall v, ov_points ov = Some v -> ov_points ov' = Some v) /\
    (forall v, ov_hatch_angle ov = Some v -> ov_hatch_angle ov' = Some v) /\
    (k = Concentric \/ k = Sunburst -> ov' = ov /\ g' = g).
Proof.
  intros G RS o svg i k ov ov' g g' H. destruct k.
  - apply vary_guilloche_cases in H. destruct H as [l [Hl ->]].
    cbn. split_ands; try reflexivity.
    + intros v Hv. destruct Hl as [[Hl _] | [Hl _]]; congruence.
    + intros v Hv. now rewrite Hv.
    + intros v Hv. now rewrite Hv.
    + intros v Hv. exact Hv.
    + intros [E | E]; discriminate.
  - unfold vary, ret in H. injection H as <- <-.
    split_ands; try reflexivity; try (intros v Hv; exact Hv). intros _. now split.
  - unfold vary, ret in H. injection H as <- <-.
    split_ands; try reflexivity; try (intros v Hv; exact Hv). intros _. now split.
  - unfold vary in H. destruct (ov_hatch_angle ov) as [a |] eqn:Ea.
    + unfold ret in H. injection H as <- <-.
      split_ands; try reflexivity; try (intros v Hv; exact Hv).
      * intros v Hv. congruence.
      * intros [E | E]; discriminate.
    + unfold bind, uniform, ret in H.
      destruct (next_uniform g (-5.0) 5.0) as [u g1]. injection H as <- <-.
      destruct ov; cbn in *. split_ands; try reflexivity; try (intros v Hv; exact Hv).
      * intros v Hv. discriminate.
      * intros [E | E]; discriminate.
Qed.

Lemma vary_keeps_fixed_values_witness :
  exists ov' g',
    vary (RS := lcg_source) complex_options mm_document 3 Guilloche
         (mkOverrides None None (Some 13%Z) (Some 1.0) None None None None) 7%Z
    = Returned (ov', g') /\
    ov_lobes ov' = Some 13%Z /\ ov_amplitude ov' = Some 1.0.
Proof.
  destruct (vary_guilloche_points (RS := lcg_source) complex_options mm_document 3
              (mkOverrides None None (Some 13%Z) (Some 1.0) None None None None) 7%Z
              eq_refl) as [ov' [g' [Hv _]]]; [right; discriminate |].
  destruct (vary_keeps_fixed_values Z lcg_source complex_options mm_document 3 Guilloche
              _ ov' 7%Z g' Hv) as [_ [_ [_ [_ [Hl [Ha _]]]]]].
  exists ov', g'. split; [exact Hv |].
  split; [apply Hl | apply Ha]; reflexivity.
Defined.

(** X23.  After the variation step a guilloche layer has its three
    parameters resolved, so the option defaults are not consulted when it
    is drawn.  Where the plan fixed none: the lobe count is
    [max(2, lobes + j)] for the [j] drawn from the random source, hence at
    least 2; the amplitude is the base amplitude times [amp_decay^i]; the
    point count is at least 800.  With the lobes fixed nothing is drawn
    from the random source. *)
Theorem guilloche_layer_resolved :
  forall (G : Type) (RS : RandomSource G) (o : options) (svg : svg_doc)
         (i : nat) (ov ov' : overrides) (g g' : G),
    vary o svg i Guilloche ov g = Returned (ov', g') ->
    exists l a p,
      ov_lobes ov' = Some l /\ ov_amplitude ov' = Some a /\ ov_points ov' = Some p /\
      (ov_lobes ov = None ->
       l = Z.max 2 (lobes o + fst (next_int g (- lobe_jitter o) (lobe_jitter o))) /\
       (2 <= l)%Z) /\
      (ov_lobes ov <> None -> g' = g) /\
      (ov_amplitude ov = None -> a = mm_to_uu svg (amplitude_mm o) * amp_decay o ^ i) /\
      (ov_points ov = None -> (800 <= p)%Z).
Proof.
  intros G RS o svg i ov ov' g g' H.
  apply vary_guilloche_cases in H. destruct H as [l [Hl ->]].
  eexists. eexists. eexists. cbn.
  split; [reflexivity |]. split; [reflexivity |]. split; [reflexivity |].
  split; [| split; [| split]].
  - intros Hn. destruct Hl as [[Hl _] | [_ [Hl _]]]; [congruence |]. subst l. split; lia.
  - intros Hn. destruct Hl as [[_ Hg] | [Hl _]]; [exact Hg | congruence].
  - intros Hn. now rewrite Hn.
  - intros Hn. rewrite Hn. unfold layer_points. lia.
Qed.

Lemma guilloche_layer_resolved_witness :
  exists ov' g' l a p,
    vary (RS := lcg_source) complex_options mm_document 3 Guilloche no_overrides 7%Z
    = Returned (ov', g') /\
    ov_lobes ov' = Some l /\ ov_amplitude ov' = Some a /\ ov_points ov' = Some p /\
    (2 <= l)%Z /\ (800 <= p)%Z.
Proof.
  destruct (vary_guilloche_points (RS := lcg_source) complex_options mm_document 3
              no_overrides 7%Z eq_refl) as [ov' [g' [Hv _]]];
    [left; vm_compute; discriminate |].
  destruct (guilloche_layer_resolved Z lcg_source complex_options mm_document 3
              no_overrides ov' 7%Z g' Hv)
    as [l [a [p [Hl [Ha [Hp [Hl2 [_ [_ Hp8]]]]]]]]].
  exists ov', g', l, a, p. split; [exact Hv |].
  split; [exact Hl |]. split; [exact Ha |]. split; [exact Hp |].
  split; [exact (proj2 (Hl2 eq_refl)) | exact (Hp8 eq_refl)].
Defined.

(** X24.  "More points on top layers": for a base point count that is not
    negative, the point count given to an unfixed guilloche layer never
    decreases from one layer to the next, and it is never below 800. *)
Theorem layer_points_grow :
  forall (o : options) (i : nat),
    (800 <= layer_points o i)%Z /\
    ((0 <= points o)%Z -> (layer_points o i <= layer_points o (S i))%Z).
Proof.
  intros o i. unfold layer_points. split; [lia |].
  intros Hp. apply IZR_le in Hp.
  pose proof (pos_INR i) as Hi.
  assert (Hx : 0 <= IZR (points o) * (1.0 + 0.10 * INR i)) by nra.
  assert (Hxy : IZR (points o) * (1.0 + 0.10 * INR i)
                <= IZR (points o) * (1.0 + 0.10 * INR (S i))).
  { rewrite S_INR. nra. }
  rewrite !py_int_nonneg by lra.
  apply Zfloor_le in Hxy. lia.
Qed.

Lemma layer_points_grow_witness :
  (0 <= points complex_options)%Z /\
  (layer_points complex_options 2 <= layer_points complex_options 3)%Z.
Proof.
  assert (Hp : (0 <= points complex_options)%Z) by (vm_compute; discriminate).
  split; [exact Hp |].
  exact (proj2 (layer_points_grow complex_options 2) Hp).
Defined.

(** ** Running twice *)

Section SecondRun.

Context {G : Type} {RS : RandomSource G}.

Variable o : options.

(** The pattern depends on the document through its unit conversion only. *)
Lemma pattern_children_units (svg1 svg2 : svg_doc) (fuel : nat) (pid : string)
    (cx cy r_outer r_inner bs bo : R) :
  doc_unittouu svg1 = doc_unittouu svg2 ->
  pattern_children o svg1 fuel pid cx cy r_outer r_inner bs bo
  = pattern_children o svg2 fuel pid cx cy r_outer r_inner bs bo.
Proof.
  destruct svg1 as [c1 u1 df1 ch1], svg2 as [c2 u2 df2 ch2].
  cbn [doc_unittouu]. intros ->. reflexivity.
Qed.

Lemma mm_to_uu_units (svg1 svg2 : svg_doc) (mm : R) :
  doc_unittouu svg1 = doc_unittouu svg2 -> mm_to_uu svg1 mm = mm_to_uu svg2 mm.
Proof. intros H. unfold mm_to_uu. now rewrite H. Qed.

End SecondRun.

(** X25.  Running the generator again on the document it returned appends a
    second group after the first and leaves the first alone.  The second
    group has the same id and label as the first and the same shapes in the
    same order; the two differ at most in the clip-path reference. *)
Theorem second_run_repeats_group :
  forall (G : Type) (RS : RandomSource G) (o : options) (svg : svg_doc)
         (fuel : nat) (hex1 hex2 : string) (d1 : svg_doc),
    effect o svg fuel hex1 = Returned d1 ->
    exists d2,
      effect o d1 fuel hex2 = Returned d2 /\
      doc_children d2 = (doc_children svg ++ [added_group d1; added_group d2])%list /\
      group_label (added_group d2) = group_label (added_group d1) /\
      leaves (added_group d2) = leaves (added_group d1) /\
      forget_clip (added_group d2) = forget_clip (added_group d1).
Proof.
  intros G RS o svg fuel hex1 hex2 d1 H1.
  destruct (effect_returned o svg fuel hex1 d1 H1) as [kids [Hpc [Hc [Hu [_ Hk]]]]].
  assert (Hro : outer_radius o d1 = outer_radius o svg)
    by (unfold outer_radius; now apply mm_to_uu_units).
  assert (Hri : inner_radius o d1 = inner_radius o svg)
    by (unfold inner_radius; now apply mm_to_uu_units).
  assert (Hpc2 : pattern_children o d1 fuel (group_id o ++ "-pattern")
                   (fst (doc_center d1)) (snd (doc_center d1))
                   (outer_radius o d1) (inner_radius o d1)
                   (mm_to_uu d1 (stroke_mm o)) (stroke_opacity_opt o)
                 = Returned kids).
  { rewrite Hc, Hro, Hri, (mm_to_uu_units d1 svg _ Hu),
      (pattern_children_units o d1 svg _ _ _ _ _ _ _ _ Hu).
    exact Hpc. }
  assert (H2 : exists d2, effect o d1 fuel hex2 = Returned d2).
  { unfold effect. destruct (doc_center d1) as [cx cy] eqn:Ec. cbn [fst snd] in Hpc2.
    unfold outer_radius, inner_radius, group_id in Hpc2. rewrite Hpc2.
    cbn [outcome_map]. eexists. reflexivity. }
  destruct H2 as [d2 H2]. exists d2. split; [exact H2 |].
  destruct (effect_returned o d1 fuel hex2 d2 H2) as [kids2 [Hpc' [_ [_ [_ Hk2]]]]].
  rewrite Hpc2 in Hpc'. injection Hpc' as <-.
  unfold added_group. rewrite Hk2, Hk, !last_last.
  rewrite Hc, Hro, (mm_to_uu_units d1 svg _ Hu).
  split; [now rewrite <- app_assoc |].
  split; [reflexivity |]. split; [reflexivity |].
  cbn [forget_clip map]. destruct (clip_to_circle o); reflexivity.
Qed.

Lemma second_run_repeats_group_witness :
  exists d1 d2,
    effect (RS := lcg_source) default_options mm_document 1 "3f9a1c" = Returned d1 /\
    effect (RS := lcg_source) default_options d1 1 "b07e42" = Returned d2 /\
    doc_children d2 = (doc_children mm_document ++ [added_group d1; added_group d2])%list /\
    group_label (added_group d2) = group_label (added_group d1).
Proof.
  destruct default_run_returns as [d1 H1].
  destruct (second_run_repeats_group Z lcg_source default_options mm_document 1
              "3f9a1c" "b07e42" d1 H1) as [d2 [H2 [Hk [Hl _]]]].
  exists d1, d2. repeat split; assumption.
Defined.

(** ** The preset "modern" *)

Section Modern.

Context {G : Type} {RS : RandomSource G}.

Variables (o : options) (svg : svg_doc).

Lemma modern_resolved :
  preset_name o = "modern"%string ->
  resolve_plan o svg = (modern_plan o svg, Z.max (Z.max 1 (layers o)) 4).
Proof. intros Hp. unfold resolve_plan, requested_layers. now rewrite Hp. Qed.

(** Every layer step of the preset "modern" returns when the hatch spacing
    of its crosshatch layers is not 0. *)
Lemma modern_layer_returns (fuel : nat) (pid : string)
    (cx cy r_outer r_inner bs bo : R) :
  mm_to_uu svg 0.6 <> 0 ->
  forall i g, exists lg g',
    layer_step o svg fuel (modern_plan o svg) pid cx cy r_outer r_inner bs bo i g
    = Returned (lg, g').
Proof.
  intros Hs i g. unfold layer_step, plan_at.
  change (List.length (modern_plan o svg)) with 4%nat.
  pose proof (Nat.mod_upper_bound i 4 ltac:(lia)) as Hlt.
  destruct (i mod 4)%nat as [| [| [| [| k]]]]; [| | | | lia];
    cbn [nth modern_plan];
    unfold bind, ret, fixed_rosette, uniform, lift, vary, draw_one, bind, ret, randint;
    cbn [Z.leb Z.compare Z.opp Pos.compare Pos.compare_cont CompOpp get
         ov_ring_spacing ov_rays ov_lobes ov_amplitude ov_points
         ov_hatch_spacing ov_hatch_angle ov_hatch_double outcome_map].
  - destruct (next_uniform g (- rotate_jitter_deg o) (rotate_jitter_deg o)) as [rot g'].
    eauto.
  - destruct (next_uniform g (- rotate_jitter_deg o) (rotate_jitter_deg o)) as [rot g'].
    unfold pattern_crosshatch.
    destruct (Req_dec_T (mm_to_uu svg 0.6) 0) as [E | _]; [contradiction |].
    cbn [outcome_map]. eauto.
  - destruct (next_int g (-3) 3) as [j g1].
    cbn [get ov_ring_spacing ov_rays ov_lobes ov_amplitude ov_points outcome_map].
    destruct (next_uniform g1 (- rotate_jitter_deg o) (rotate_jitter_deg o)) as [rot g'].
    eauto.
  - destruct (next_int g (-8) 8) as [j g1].
    cbn [get ov_ring_spacing ov_rays ov_lobes ov_amplitude ov_points outcome_map].
    destruct (next_uniform g1 (- rotate_jitter_deg o) (rotate_jitter_deg o)) as [rot g'].
    eauto.
Qed.

Lemma modern_kind_at (i : nat) :
  fst (plan_at (modern_plan o svg) i)
  = nth (i mod 4) [Sunburst; Crosshatch; Guilloche; Guilloche] Guilloche.
Proof.
  unfold plan_at. change (List.length (modern_plan o svg)) with 4%nat.
  pose proof (Nat.mod_upper_bound i 4 ltac:(lia)) as Hlt.
  destruct (i mod 4)%nat as [| [| [| [| k]]]]; [| | | | lia]; reflexivity.
Qed.

Lemma modern_effect_returns (fuel : nat) (hex : string) :
  auto_complex o = true ->
  preset_name o = "modern"%string ->
  mm_to_uu svg 0.6 <> 0 ->
  exists d, effect o svg fuel hex = Returned d.
Proof.
  intros Hauto Hp Hs. unfold effect. destruct (doc_center svg) as [cx cy].
  unfold pattern_children. rewrite Hauto. cbn [negb]. rewrite (modern_resolved Hp).
  match goal with
  | |- context [run_layers ?step ?idxs ?g] =>
      destruct (run_layers_returns step idxs
                  (modern_layer_returns fuel _ cx cy _ _ _ _ Hs) g)
        as [lgs [g' Hrun]];
      rewrite Hrun
  end.
  cbn [outcome_map]. eexists. reflexivity.
Qed.

End Modern.

(** X26.  The preset "modern" has no loop to run away in: in auto-complex
    mode, when 0.6 mm converts to a hatch spacing that is not 0, the run
    returns whatever the fuel, with [max(layers, 4)] layer groups (at least
    one layer being asked for), and the plan is cycled: layer [i] is drawn
    by the generator at position [i mod 4] of sunburst, crosshatch,
    guilloche, guilloche. *)
Theorem modern_preset_runs :
  forall (G : Type) (RS : RandomSource G) (o : options) (svg : svg_doc)
         (fuel : nat) (hex : string),
    auto_complex o = true ->
    preset_name o = "modern"%string ->
    mm_to_uu svg 0.6 <> 0 ->
    exists d,
      effect o svg fuel hex = Returned d /\
      List.length (layer_groups d) = Z.to_nat (Z.max (Z.max 1 (layers o)) 4) /\
      forall i lg,
        nth_error (layer_groups d) i = Some lg ->
        drawn_layer o svg fuel
          (nth (i mod 4) [Sunburst; Crosshatch; Guilloche; Guilloche] Guilloche) i lg.
Proof.
  intros G RS o svg fuel hex Hauto Hp Hs.
  destruct (modern_effect_returns o svg fuel hex Hauto Hp Hs) as [d Hd].
  exists d. split; [exact Hd |].
  destruct (effect_returned o svg fuel hex d Hd) as [kids [Hpc [_ [_ [_ Hk]]]]].
  unfold layer_groups. rewrite Hk, last_last.
  apply (pattern_children_layers o svg _ _ _ _ _ _ _ _ kids Hauto) in Hpc.
  rewrite (modern_resolved o svg Hp) in Hpc. cbn [fst snd] in Hpc.
  destruct (Forall2_seq_nth _ _ _ _ Hpc) as [Hlen Hnth].
  split; [exact Hlen |].
  intros i lg Hi. destruct (Hnth i lg Hi) as [rot [shapes [ov [-> Hdraw]]]].
  cbn [Nat.add] in Hdraw. rewrite modern_kind_at in Hdraw.
  unfold drawn_layer, make_layer. do 5 eexists. split; [reflexivity |].
  exact Hdraw.
Qed.

Lemma modern_preset_runs_witness :
  auto_complex (with_preset "modern" complex_options) = true /\
  preset_name (with_preset "modern" complex_options) = "modern"%string /\
  mm_to_uu mm_document 0.6 <> 0 /\
  exists d,
    effect (RS := lcg_source) (with_preset "modern" complex_options) mm_document 0 "3f9a1c"
    = Returned d /\
    List.length (layer_groups d)
    = Z.to_nat (Z.max (Z.max 1 (layers (with_preset "modern" complex_options))) 4).
Proof.
  assert (Hs : mm_to_uu mm_document 0.6 <> 0) by (cbn; lra).
  split; [reflexivity |]. split; [reflexivity |]. split; [exact Hs |].
  destruct (modern_preset_runs Z lcg_source (with_preset "modern" complex_options)
              mm_document 0 "3f9a1c" eq_refl eq_refl Hs) as [d [Hd [Hlen _]]].
  exists d. split; assumption.
Defined.

(** ** Rosette stacks on the dial *)

Lemma pow_unit_interval (x : R) (n : nat) : 0 <= x <= 1 -> 0 <= x ^ n <= 1.
Proof.
  intros Hx. induction n as [| n IH]; simpl; [lra | nra].
Qed.

Section RosetteStack.

Context {G : Type} {RS : RandomSource G}.

Variables (o : options) (svg : svg_doc).

(** A rosette layer step that returns has drawn one rosette, with the
    amplitude decayed to this layer. *)
Lemma rosette_layer_drawn (fuel n : nat) (pid : string)
    (cx cy r_outer r_inner bs bo : R) (i : nat) (g g' : G) (lg : node) :
  layer_step o svg fuel (repeat rosette_entry n) pid cx cy r_outer r_inner bs bo i g
  = Returned (lg, g') ->
  exists l p,
    group_children lg
    = pattern_guilloche cx cy r_outer l
        (mm_to_uu svg (amplitude_mm o) * amp_decay o ^ i) p
        (layer_stroke o bs i) (stroke_color o) (layer_opacity o bo i).
Proof.
  unfold layer_step. rewrite rosette_plan_at. unfold rosette_entry.
  unfold bind at 1. unfold ret at 1. unfold bind at 1.
  destruct (vary o svg i Guilloche no_overrides g) as [[ov g1] | e |] eqn:Ev;
    try discriminate.
  apply vary_guilloche_cases in Ev. destruct Ev as [l [_ ->]].
  cbn [ov_amplitude ov_points ov_ring_spacing ov_rays ov_hatch_spacing ov_hatch_angle
       ov_hatch_double no_overrides].
  unfold bind, uniform, lift, draw_one, ret.
  destruct (next_uniform g1 (- rotate_jitter_deg o) (rotate_jitter_deg o)) as [rot g2].
  cbn [outcome_map get ov_lobes ov_amplitude ov_points].
  intros H. injection H as <- _. unfold make_layer. cbn [group_children].
  eexists. eexists. reflexivity.
Qed.

End RosetteStack.

(** X27.  A stack of rosettes stays on the dial even without clipping: in
    auto-complex mode with a preset other than "breguet" and "modern", an
    [amp_decay] in [0, 1] and a base amplitude between 0 and the outer
    radius, every layer group of a run that returns holds one path, and
    every point of that path is within the outer radius of the centre. *)
Theorem rosette_stack_inside_dial :
  forall (G : Type) (RS : RandomSource G) (o : options) (svg : svg_doc)
         (fuel : nat) (hex : string) (d : svg_doc),
    auto_complex o = true ->
    String.eqb (preset_name o) "breguet" = false ->
    String.eqb (preset_name o) "modern" = false ->
    0 <= amp_decay o <= 1 ->
    0 <= mm_to_uu svg (amplitude_mm o) <= outer_radius o svg ->
    effect o svg fuel hex = Returned d ->
    forall lg, In lg (layer_groups d) ->
      exists pts st,
        group_children lg = [PathN pts st] /\
        forall p, In p pts ->
          dist2 (fst (doc_center svg)) (snd (doc_center svg)) p
          <= outer_radius o svg * outer_radius o svg.
Proof.
  intros G RS o svg fuel hex d Hauto Hb Hm Hdecay Hamp H lg Hin.
  destruct (effect_returned o svg fuel hex d H) as [kids [Hpc [_ [_ [_ Hk]]]]].
  unfold layer_groups in Hin. rewrite Hk, last_last in Hin.
  unfold pattern_children in Hpc. rewrite Hauto in Hpc. cbn [negb] in Hpc.
  rewrite (rosette_resolved o svg Hb Hm) in Hpc.
  match type of Hpc with
  | context [run_layers ?step ?idxs ?g] =>
      destruct (run_layers step idxs g) as [[lgs g'] | e |] eqn:Erun
  end; cbn [outcome_map] in Hpc; try discriminate.
  injection Hpc as <-. cbn [fst] in Hin.
  apply run_layers_steps in Erun.
  apply In_nth_error in Hin. destruct Hin as [i Hi].
  destruct (Forall2_seq_nth _ _ _ _ Erun) as [_ Hnth].
  destruct (Hnth i lg Hi) as [g1 [g2 Hstep]]. cbn [Nat.add] in Hstep.
  apply rosette_layer_drawn in Hstep. destruct Hstep as [l [p Hkids]].
  rewrite Hkids. unfold pattern_guilloche.
  eexists. eexists. split; [reflexivity |].
  intros q Hq.
  pose proof (pow_unit_interval (amp_decay o) i Hdecay) as Hpow.
  eapply guilloche_points_within; [| | exact Hq]; nra.
Qed.

Lemma rosette_stack_inside_dial_witness :
  auto_complex complex_options = true /\
  0 <= amp_decay complex_options <= 1 /\
  0 <= mm_to_uu mm_document (amplitude_mm complex_options)
  <= outer_radius complex_options mm_document /\
  exists d lg pts st,
    effect (RS := lcg_source) complex_options mm_document 0 "3f9a1c" = Returned d /\
    In lg (layer_groups d) /\
    group_children lg = [PathN pts st] /\
    forall p, In p pts ->
      dist2 (fst (doc_center mm_document)) (snd (doc_center mm_document)) p
      <= outer_radius complex_options mm_document * outer_radius complex_options mm_document.
Proof.
  assert (Hdecay : 0 <= amp_decay complex_options <= 1) by (cbn; lra).
  assert (Hamp : 0 <= mm_to_uu mm_document (amplitude_mm complex_options)
                 <= outer_radius complex_options mm_document)
    by (unfold outer_radius; cbn; lra).
  split; [reflexivity |]. split; [exact Hdecay |]. split; [exact Hamp |].
  destruct complex_run_first_layer as [d [lg [Hd Hlg]]].
  assert (Hin : In lg (layer_groups d)) by (eapply nth_error_In; exact Hlg).
  destruct (rosette_stack_inside_dial Z lcg_source complex_options mm_document 0 "3f9a1c"
              d eq_refl eq_refl eq_refl Hdecay Hamp Hd lg Hin) as [pts [st [Hk Hp]]].
  exists d, lg, pts, st. repeat split; assumption.
Defined.

(** ** Termination *)

(** X28.  The concentric generator comes back exactly when its loop can
    end: it returns, given enough fuel, if and only if the spacing is
    positive or the start radius [max(0, r_inner)] is already beyond
    [r_outer + 1e-9]. *)
Theorem concentric_returns_iff :
  forall cx cy r_outer r_inner spacing w c op,
    (exists fuel rings,
       pattern_concentric fuel cx cy r_outer r_inner spacing w c op = Returned rings)
    <-> (0 < spacing \/ ~ Rmax 0 r_inner <= r_outer + 1e-9).
Proof.
  intros cx cy r_outer r_inner spacing w c op. split.
  - intros [fuel [rings H]].
    destruct (Rlt_dec 0 spacing) as [Hs | Hs]; [now left |]. right. intros Hr.
    unfold pattern_concentric, concentric_radii in H.
    replace 0.0 with 0 in H by lra.
    destruct (concentric_loop_never_exits r_outer spacing fuel ltac:(lra) _ Hr)
      as [He _].
    destruct (concentric_loop fuel r_outer spacing (Rmax 0 r_inner)) as [rs e].
    cbn [snd] in He. subst e. discriminate.
  - intros [Hs | Hr].
    + destruct (pattern_concentric_returns r_outer r_inner spacing Hs) as [n [_ Hn]].
      exists (S n). eexists. apply Hn. lia.
    + exists 1%nat, [].
      rewrite (pattern_concentric_radii _ _ _ _ _ _ _ _ _ []); [reflexivity |].
      unfold concentric_radii. replace 0.0 with 0 by lra.
      now apply concentric_loop_exit.
Qed.

Lemma concentric_returns_iff_witness :
  (0 < 2 \/ ~ Rmax 0 0 <= 10 + 1e-9) /\
  exists fuel rings,
    pattern_concentric fuel 0 0 10 0 2 1 "#000000" 1 = Returned rings.
Proof.
  assert (H : 0 < 2 \/ ~ Rmax 0 0 <= 10 + 1e-9) by (left; lra).
  split; [exact H |].
  exact (proj2 (concentric_returns_iff 0 0 10 0 2 1 "#000000" 1) H).
Defined.

Section Finishing.

Context {G : Type} {RS : RandomSource G}.

Variables (o : options) (svg : svg_doc).

Lemma run_layers_finishes (step : nat -> rand node) (idxs : list nat) :
  (forall i g, step i g <> Unfinished) ->
  forall g : G, run_layers step idxs g <> Unfinished.
Proof.
  intros Hstep. induction idxs as [| i rest IH]; intros g; [discriminate |].
  simpl. unfold bind.
  specialize (Hstep i g). destruct (step i g) as [[lg g1] | e |];
    [| discriminate | contradiction].
  specialize (IH g1). destruct (run_layers step rest g1) as [[lgs g2] | e |];
    [discriminate | discriminate | contradiction].
Qed.

(** No layer step of the preset "modern" is left looping. *)
Lemma modern_layer_finishes (fuel : nat) (pid : string)
    (cx cy r_outer r_inner bs bo : R) (i : nat) (g : G) :
  layer_step o svg fuel (modern_plan o svg) pid cx cy r_outer r_inner bs bo i g
  <> Unfinished.
Proof.
  unfold layer_step, plan_at.
  change (List.length (modern_plan o svg)) with 4%nat.
  pose proof (Nat.mod_upper_bound i 4 ltac:(lia)) as Hlt.
  destruct (i mod 4)%nat as [| [| [| [| k]]]]; [| | | | lia];
    cbn [nth modern_plan];
    unfold bind, ret, fixed_rosette, uniform, lift, vary, draw_one, bind, ret, randint;
    cbn [Z.leb Z.compare Z.opp Pos.compare Pos.compare_cont CompOpp get
         ov_ring_spacing ov_rays ov_lobes ov_amplitude ov_points
         ov_hatch_spacing ov_hatch_angle ov_hatch_double outcome_map].
  - destruct (next_uniform g (- rotate_jitter_deg o) (rotate_jitter_deg o)) as [rot g'].
    discriminate.
  - destruct (next_uniform g (- rotate_jitter_deg o) (rotate_jitter_deg o)) as [rot g'].
    unfold pattern_crosshatch.
    destruct (Req_dec_T (mm_to_uu svg 0.6) 0); cbn [outcome_map]; discriminate.
  - destruct (next_int g (-3) 3) as [j g1].
    cbn [get ov_ring_spacing ov_rays ov_lobes ov_amplitude ov_points outcome_map].
    destruct (next_uniform g1 (- rotate_jitter_deg o) (rotate_jitter_deg o)) as [rot g'].
    discriminate.
  - destruct (next_int g (-8) 8) as [j g1].
    cbn [get ov_ring_spacing ov_rays ov_lobes ov_amplitude ov_points outcome_map].
    destruct (next_uniform g1 (- rotate_jitter_deg o) (rotate_jitter_deg o)) as [rot g'].
    discriminate.
Qed.

Lemma breguet_resolved_by_name :
  preset_name o = "breguet"%string ->
  resolve_plan o svg = (breguet_plan o svg, Z.max (Z.max 1 (layers o)) 4).
Proof. intros Hp. unfold resolve_plan, requested_layers. now rewrite Hp. Qed.

(** Away from the preset "breguet" an auto-complex run is never left
    looping. *)
Lemma complex_run_finishes (fuel : nat) (hex : string) :
  auto_complex o = true ->
  preset_name o <> "breguet"%string ->
  effect o svg fuel hex <> Unfinished.
Proof.
  intros Hauto Hnb.
  assert (Hb : String.eqb (preset_name o) "breguet" = false)
    by (now apply String.eqb_neq).
  destruct (String.eqb (preset_name o) "modern") eqn:Hm.
  - apply String.eqb_eq in Hm.
    unfold effect. destruct (doc_center svg) as [cx cy].
    unfold pattern_children. rewrite Hauto. cbn [negb]. rewrite (modern_resolved o svg Hm).
    match goal with
    | |- context [run_layers ?step ?idxs ?g] =>
        pose proof (run_layers_finishes step idxs
                      (modern_layer_finishes fuel _ cx cy _ _ _ _) g) as Hfin;
        destruct (run_layers step idxs g) as [[lgs g'] | e |]
    end; cbn [outcome_map]; [discriminate | discriminate | contradiction].
  - destruct (Z_le_gt_dec 0 (lobe_jitter o)) as [Hj | Hj].
    + destruct (rosette_effect_returns o svg Hb Hm fuel hex Hauto Hj) as [d [Hd _]].
      rewrite Hd. discriminate.
    + rewrite (rosette_effect_raises o svg Hb Hm fuel hex Hauto) by lia. discriminate.
Qed.

(** With the preset "breguet" and a positive ring spacing the run returns. *)
Lemma breguet_run_returns :
  auto_complex o = true ->
  preset_name o = "breguet"%string ->
  0 < mm_to_uu svg 0.45 ->
  exists fuel0 : nat, forall (fuel : nat) (hex : string),
    (fuel0 <= fuel)%nat -> exists d, effect o svg fuel hex = Returned d.
Proof.
  intros Hauto Hp Hspacing.
  destruct (pattern_concentric_returns (outer_radius o svg) (inner_radius o svg)
              (mm_to_uu svg 0.45) Hspacing) as [n [_ Hn]].
  exists (S n). intros fuel hex Hfuel.
  unfold effect. destruct (doc_center svg) as [cx cy].
  unfold pattern_children. rewrite Hauto. cbn [negb].
  rewrite (breguet_resolved_by_name Hp).
  match goal with
  | |- context [run_layers ?step ?idxs ?g] =>
      destruct (run_layers_returns step idxs
                  (breguet_layer_returns o svg fuel _ cx cy _ _ _ _ _
                     (fun w c op => Hn fuel cx cy w c op ltac:(lia))) g)
        as [lgs [g' Hrun]]
  end.
  unfold outer_radius, inner_radius in Hrun. rewrite Hrun.
  cbn [outcome_map]. eexists. reflexivity.
Qed.

End Finishing.

(** X29.  The one way to hang the generator is a ring spacing that is not
    positive.  A single-layer run of a pattern other than concentric, and
    an auto-complex run of a preset other than "breguet", are never left
    looping, whatever the options.  A single-layer concentric run, and an
    auto-complex "breguet" run, return once the ring spacing in user units
    is positive. *)
Theorem only_ring_spacing_can_hang :
  forall (G : Type) (RS : RandomSource G) (o : options) (svg : svg_doc),
    (auto_complex o = false -> pattern_type o <> Concentric ->
     forall fuel hex, effect o svg fuel hex <> Unfinished) /\
    (auto_complex o = true -> preset_name o <> "breguet"%string ->
     forall fuel hex, effect o svg fuel hex <> Unfinished) /\
    (auto_complex o = false -> pattern_type o = Concentric ->
     0 < mm_to_uu svg (ring_spacing_mm o) ->
     exists fuel0 : nat, forall (fuel : nat) (hex : string),
       (fuel0 <= fuel)%nat -> exists d, effect o svg fuel hex = Returned d) /\
    (auto_complex o = true -> preset_name o = "breguet"%string ->
     0 < mm_to_uu svg 0.45 ->
     exists fuel0 : nat, forall (fuel : nat) (hex : string),
       (fuel0 <= fuel)%nat -> exists d, effect o svg fuel hex = Returned d).
Proof.
  intros G RS o svg. split; [| split; [| split]].
  - intros Hauto Hk fuel hex.
    unfold effect. destruct (doc_center svg) as [cx cy].
    unfold pattern_children. rewrite Hauto. cbn [negb]. unfold draw_one.
    destruct (pattern_type o); [| contradiction | |]; cbn [outcome_map];
      try discriminate.
    unfold pattern_crosshatch.
    destruct (Req_dec_T _ 0); [discriminate |].
    destruct (get (ov_hatch_double no_overrides) (hatch_double o)); discriminate.
  - intros Hauto Hp fuel hex. now apply complex_run_finishes.
  - intros Hauto Hk Hs.
    destruct (pattern_concentric_returns (outer_radius o svg) (inner_radius o svg)
                (mm_to_uu svg (ring_spacing_mm o)) Hs) as [n [_ Hn]].
    exists (S n). intros fuel hex Hfuel.
    unfold effect. destruct (doc_center svg) as [cx cy].
    unfold pattern_children. rewrite Hauto, Hk. cbn [negb]. unfold draw_one.
    cbn [get ov_ring_spacing no_overrides].
    unfold outer_radius, inner_radius in Hn. rewrite Hn by lia.
    cbn [outcome_map]. eexists. reflexivity.
  - intros Hauto Hp Hs. now apply breguet_run_returns.
Qed.

Lemma only_ring_spacing_can_hang_witness :
  auto_complex default_options = false /\
  pattern_type default_options <> Concentric /\
  effect (RS := lcg_source) default_options mm_document 0 "3f9a1c" <> Unfinished /\
  auto_complex (with_preset "breguet" complex_options) = true /\
  preset_name (with_preset "breguet" complex_options) = "breguet"%string /\
  0 < mm_to_uu mm_document 0.45 /\
  exists fuel0 : nat, forall (fuel : nat) (hex : string),
    (fuel0 <= fuel)%nat ->
    exists d,
      effect (RS := lcg_source) (with_preset "breguet" complex_options) mm_document fuel hex
      = Returned d.
Proof.
  destruct (only_ring_spacing_can_hang Z lcg_source default_options mm_document)
    as [Hsingle _].
  destruct (only_ring_spacing_can_hang Z lcg_source (with_preset "breguet" complex_options)
              mm_document) as [_ [_ [_ Hbreguet]]].
  assert (Hk : pattern_type default_options <> Concentric) by discriminate.
  assert (Hs : 0 < mm_to_uu mm_document 0.45) by (cbn; lra).
  split; [reflexivity |]. split; [exact Hk |].
  split; [exact (Hsingle eq_refl Hk 0%nat "3f9a1c"%string) |].
  split; [reflexivity |]. split; [reflexivity |]. split; [exact Hs |].
  exact (Hbreguet eq_refl eq_refl Hs).
Defined.
